(** * Arboles: L-system rewriting and turtle interpretation

    A shallow embedding of the two algorithmic components of the
    repository:

    - [LSystem] (LSystem.h / LSystem.cpp): axiom, production rules
      (a [std::map<char, std::string>]) and parallel rewriting;
    - [TurtleGraphics] (TurtleGraphics.h / TurtleGraphics.cpp): the
      command interpreter that walks a turtle with a 3D frame through
      the generated string and emits branch and decoration records.

    C++ [float] is IEEE-754 binary32.  It is modelled with the standard
    library's executable specification of binary floating point
    ([SpecFloat], precision 24, emax 128), so every definition below
    evaluates on concrete inputs. *)

From Stdlib Require Import ZArith Bool List Ascii String Lia.
From Stdlib Require Import Floats.SpecFloat.
From stdpp Require Import base gmap strings.

Import ListNotations.
Open Scope Z_scope.

(* ===================================================================== *)
(** * binary32 arithmetic                                                  *)
(* ===================================================================== *)

Module Float32.

Definition prec : Z := 24.
Definition emax : Z := 128.

Definition float : Type := spec_float.

Definition add : float -> float -> float := SFadd prec emax.
Definition sub : float -> float -> float := SFsub prec emax.
Definition mul : float -> float -> float := SFmul prec emax.
Definition div : float -> float -> float := SFdiv prec emax.
Definition sqrt : float -> float := SFsqrt prec emax.
Definition neg : float -> float := SFopp.
Definition ltb : float -> float -> bool := SFltb.
Definition leb : float -> float -> bool := SFleb.

(** [std::min(a, b)] is [(b < a) ? b : a]; [std::max(a, b)] is
    [(a < b) ? b : a]. *)
Definition min (a b : float) : float := if ltb b a then b else a.
Definition max (a b : float) : float := if ltb a b then b else a.

(** Conversion of an [int] constant. *)
Definition of_Z (n : Z) : float := binary_normalize prec emax n 0 false.

(** The binary32 value nearest to the decimal literal [num / den]
    (round to nearest, ties to even): the value a compiler gives the
    literal written in the source. *)
Definition lit (num den : positive) : float :=
  SFdiv prec emax (S754_finite false num 0) (S754_finite false den 0).

(** Decoding of an IEEE-754 binary32 bit pattern, used to document the
    literals. *)
Definition of_bits (w : Z) : float :=
  let s := Z.testbit w 31 in
  let e := Z.land (Z.shiftr w 23) 255 in
  let m := Z.land w 8388607 in
  if e =? 255 then (if m =? 0 then S754_infinity s else S754_nan)
  else if e =? 0 then
    match m with
    | Zpos p => S754_finite s p (-149)
    | _ => S754_zero s
    end
  else
    match m + 8388608 with
    | Zpos p => S754_finite s p (e - 150)
    | _ => S754_nan
    end.

Definition zero : float := S754_zero false.
Definition one : float := of_Z 1.

End Float32.

Arguments Float32.add : simpl never.
Arguments Float32.sub : simpl never.
Arguments Float32.mul : simpl never.
Arguments Float32.div : simpl never.
Arguments Float32.sqrt : simpl never.
Arguments Float32.neg : simpl never.
Arguments Float32.min : simpl never.
Arguments Float32.max : simpl never.
Arguments Float32.lit : simpl never.
Arguments Float32.of_Z : simpl never.

Declare Scope f32_scope.
Delimit Scope f32_scope with f32.
Infix "+" := Float32.add : f32_scope.
Infix "-" := Float32.sub : f32_scope.
Infix "*" := Float32.mul : f32_scope.
Infix "/" := Float32.div : f32_scope.
Notation "- x" := (Float32.neg x) : f32_scope.

Abbreviation float := Float32.float.

(* ===================================================================== *)
(** * Grammar engine: LSystem.cpp                                          *)
(* ===================================================================== *)

Module LSystem.

(** The private members of [class LSystem], in declaration order.
    [rules] is a [std::map<char, std::string>]; [int] members are
    integers (the generation counter never exceeds the argument of
    [generate], so it stays in the range of [int]). *)
Record t : Type := mk {
  axiom : string;
  rules : gmap ascii string;
  currentString : string;
  angle : float;
  currentGeneration : Z
}.

(** [LSystem::LSystem() : angle(0.0F), currentGeneration(0)]. *)
Definition new : t :=
  {| axiom := ""; rules := ∅; currentString := "";
     angle := Float32.zero; currentGeneration := 0 |}.

(** The body of the inner loop of [generate] for one symbol:
    [if (rules.find(symbol) != rules.end()) nextString += rules[symbol];
     else nextString += symbol;]. *)
Definition rewrite_symbol (rs : gmap ascii string) (nextString : string)
    (symbol : ascii) : string :=
  match rs !! symbol with
  | Some replacement => nextString +:+ replacement
  | None => nextString +:+ String symbol ""
  end.

(** [for (char symbol : currentString) { ... }], accumulating into
    [nextString] from left to right. *)
Fixpoint rewrite_from (rs : gmap ascii string) (nextString : string)
    (rest : string) : string :=
  match rest with
  | EmptyString => nextString
  | String symbol rest' =>
      rewrite_from rs (rewrite_symbol rs nextString symbol) rest'
  end.

(** One iteration of the outer loop: a full parallel rewriting pass,
    then [currentString = nextString; currentGeneration++]. *)
Definition generation_step (ls : t) : t :=
  {| axiom := axiom ls; rules := rules ls;
     currentString := rewrite_from (rules ls) "" (currentString ls);
     angle := angle ls;
     currentGeneration := currentGeneration ls + 1 |}.

(** [for (int gen = 0; gen < generations; gen++)]: the body runs
    [generations] times, and not at all when [generations <= 0]. *)
Fixpoint generation_loop (count : nat) (ls : t) : t :=
  match count with
  | O => ls
  | S count' => generation_loop count' (generation_step ls)
  end.

(** [void LSystem::reset()]. *)
Definition reset (ls : t) : t :=
  {| axiom := axiom ls; rules := rules ls;
     currentString := axiom ls;
     angle := angle ls;
     currentGeneration := 0 |}.

(** [void LSystem::generate(int generations)]: the working string is
    restarted from the axiom, then rewritten [generations] times. *)
Definition generate (generations : Z) (ls : t) : t :=
  generation_loop (Z.to_nat generations) (reset ls).

Definition getString (ls : t) : string := currentString ls.
Definition getAngle (ls : t) : float := angle ls.
Definition getAxiom (ls : t) : string := axiom ls.
Definition getGeneration (ls : t) : Z := currentGeneration ls.

(** [void LSystem::setAxiom(const std::string&)]. *)
Definition setAxiom (newAxiom : string) (ls : t) : t :=
  {| axiom := newAxiom; rules := rules ls;
     currentString := newAxiom;
     angle := angle ls;
     currentGeneration := 0 |}.

Definition setAngle (newAngle : float) (ls : t) : t :=
  {| axiom := axiom ls; rules := rules ls;
     currentString := currentString ls;
     angle := newAngle;
     currentGeneration := currentGeneration ls |}.

(** [rules[symbol] = replacement]: insert or overwrite. *)
Definition addRule (symbol : ascii) (replacement : string) (ls : t) : t :=
  {| axiom := axiom ls; rules := <[symbol := replacement]> (rules ls);
     currentString := currentString ls;
     angle := angle ls;
     currentGeneration := currentGeneration ls |}.

Definition clearRules (ls : t) : t :=
  {| axiom := axiom ls; rules := ∅;
     currentString := currentString ls;
     angle := angle ls;
     currentGeneration := currentGeneration ls |}.

End LSystem.

(** The two grammars the specification names. *)
Definition fibonacci_grammar : LSystem.t :=
  LSystem.addRule "B" "A"
    (LSystem.addRule "A" "AB" (LSystem.setAxiom "A" LSystem.new)).

Definition koch_grammar : LSystem.t :=
  LSystem.addRule "F" "F+F--F+F" (LSystem.setAxiom "F" LSystem.new).


(* ===================================================================== *)
(** * The vector library (glm) and the math library (libm)                *)
(* ===================================================================== *)

(** glm is a header library outside the repository.  The functions the
    interpreter calls are written here as glm defines them for
    [vec<3, float>] in its default (non-SIMD) configuration. *)
Module Glm.

Record vec3 : Type := Vec3 { x : float; y : float; z : float }.
Record vec4 : Type := Vec4 { x4 : float; y4 : float; z4 : float; w4 : float }.
(** [glm::mat4] is four column vectors. *)
Record mat4 : Type := Mat4 { col0 : vec4; col1 : vec4; col2 : vec4; col3 : vec4 }.

(** [a + b] and [v * s] on [vec3]. *)
Definition vadd (a b : vec3) : vec3 :=
  Vec3 (x a + x b)%f32 (y a + y b)%f32 (z a + z b)%f32.
Definition vscale (v : vec3) (s : float) : vec3 :=
  Vec3 (x v * s)%f32 (y v * s)%f32 (z v * s)%f32.

(** [glm::dot]: [tmp = a * b; return tmp.x + tmp.y + tmp.z]. *)
Definition dot (a b : vec3) : float :=
  ((x a * x b + y a * y b) + z a * z b)%f32.

(** [glm::cross]. *)
Definition cross (a b : vec3) : vec3 :=
  Vec3 (y a * z b - y b * z a)%f32
       (z a * x b - z b * x a)%f32
       (x a * y b - x b * y a)%f32.

(** [glm::inversesqrt(v) = 1 / sqrt(v)] and
    [glm::normalize(v) = v * inversesqrt(dot(v, v))]. *)
Definition inversesqrt (v : float) : float :=
  (Float32.one / Float32.sqrt v)%f32.
Definition normalize (v : vec3) : vec3 := vscale v (inversesqrt (dot v v)).

(** [glm::radians(degrees) = degrees * 0.01745329251994329576923690768489]. *)
Definition deg_to_rad : float :=
  Float32.lit 1745329251994329576923690768489 100000000000000000000000000000000.
Definition radians (degrees : float) : float := (degrees * deg_to_rad)%f32.

(** [glm::vec4(v, w)]. *)
Definition vec4_of (v : vec3) (w : float) : vec4 := Vec4 (x v) (y v) (z v) w.

End Glm.

(* ===================================================================== *)
(** * Turtle interpreter: TurtleGraphics.h / TurtleGraphics.cpp            *)
(* ===================================================================== *)

Module TurtleGraphics.

Import Glm.

(** [struct TurtleState].  [depth] is an [int] that a push increments;
    it is only ever read back by a pop, and a string would need 2^31
    unclosed '[' to take it out of the range of [int]. *)
Record TurtleState : Type := mkState {
  position : vec3;
  heading : vec3;
  left : vec3;
  up : vec3;
  width : float;
  color : vec3;
  depth : Z
}.

(** The default member initialisers of [TurtleState]. *)
Definition TurtleState_default : TurtleState :=
  {| position := Vec3 Float32.zero Float32.zero Float32.zero;
     heading := Vec3 Float32.zero Float32.one Float32.zero;
     left := Vec3 (- Float32.one)%f32 Float32.zero Float32.zero;
     up := Vec3 Float32.zero Float32.zero Float32.one;
     width := Float32.lit 2 100;
     color := Vec3 (Float32.lit 45 100) (Float32.lit 30 100) (Float32.lit 15 100);
     depth := 0 |}.

(** [struct BranchData].  [end] is a keyword here, hence [end_]; the
    member [color] is [branch_color], the name [color] being taken by
    [TurtleState]. *)
Record BranchData : Type := mkBranch {
  start : vec3;
  end_ : vec3;
  radiusStart : float;
  radiusEnd : float;
  branch_color : vec3
}.

(** [struct DecorationData]; [type] is 0 for a leaf and 1 for a flower.
    The members [position] and [color] are [decoration_position] and
    [decoration_color]. *)
Record DecorationData : Type := mkDecoration {
  decoration_position : vec3;
  orientation : mat4;
  decoration_color : vec3;
  size : float;
  type : Z
}.

(** The members of [class TurtleGraphics] that the interpreter reads
    or writes.  [m_stateStack] has its top at the head of the list;
    [push_back] on a vector appends at the end of the list.  The
    handles of GPU objects are not modelled. *)
Record t : Type := mk {
  m_is3D : bool;
  m_currentState : TurtleState;
  m_stateStack : list TurtleState;
  m_branches : list BranchData;
  m_decorations : list DecorationData;
  m_leaves : list DecorationData;
  m_flowers : list DecorationData;
  m_stepSize : float;
  m_initialWidth : float;
  m_widthDecay : float;
  m_leafSize : float;
  m_branchColor : vec3;
  m_leafColor : vec3;
  m_flowerColor : vec3
}.

(** The default member initialisers of the class. *)
Definition new : t :=
  {| m_is3D := false;
     m_currentState := TurtleState_default;
     m_stateStack := [];
     m_branches := [];
     m_decorations := [];
     m_leaves := [];
     m_flowers := [];
     m_stepSize := Float32.lit 8 100;
     m_initialWidth := Float32.lit 2 100;
     m_widthDecay := Float32.lit 7 10;
     m_leafSize := Float32.lit 8 100;
     m_branchColor := Vec3 (Float32.lit 4 10) (Float32.lit 25 100) (Float32.lit 1 10);
     m_leafColor := Vec3 (Float32.lit 15 100) (Float32.lit 55 100) (Float32.lit 15 100);
     m_flowerColor := Vec3 Float32.one (Float32.lit 45 100) (Float32.lit 7 10) |}.

(** Assignments to single members. *)
Definition set_currentState (st : TurtleState) (tg : t) : t :=
  mk (m_is3D tg) st (m_stateStack tg) (m_branches tg) (m_decorations tg)
     (m_leaves tg) (m_flowers tg) (m_stepSize tg) (m_initialWidth tg)
     (m_widthDecay tg) (m_leafSize tg) (m_branchColor tg) (m_leafColor tg)
     (m_flowerColor tg).

Definition set_stateStack (stk : list TurtleState) (tg : t) : t :=
  mk (m_is3D tg) (m_currentState tg) stk (m_branches tg) (m_decorations tg)
     (m_leaves tg) (m_flowers tg) (m_stepSize tg) (m_initialWidth tg)
     (m_widthDecay tg) (m_leafSize tg) (m_branchColor tg) (m_leafColor tg)
     (m_flowerColor tg).

Definition set_branches (bs : list BranchData) (tg : t) : t :=
  mk (m_is3D tg) (m_currentState tg) (m_stateStack tg) bs (m_decorations tg)
     (m_leaves tg) (m_flowers tg) (m_stepSize tg) (m_initialWidth tg)
     (m_widthDecay tg) (m_leafSize tg) (m_branchColor tg) (m_leafColor tg)
     (m_flowerColor tg).

Definition set_decorations (ds : list DecorationData) (tg : t) : t :=
  mk (m_is3D tg) (m_currentState tg) (m_stateStack tg) (m_branches tg) ds
     (m_leaves tg) (m_flowers tg) (m_stepSize tg) (m_initialWidth tg)
     (m_widthDecay tg) (m_leafSize tg) (m_branchColor tg) (m_leafColor tg)
     (m_flowerColor tg).

Definition set_leaves_flowers (ls fs : list DecorationData) (tg : t) : t :=
  mk (m_is3D tg) (m_currentState tg) (m_stateStack tg) (m_branches tg)
     (m_decorations tg) ls fs (m_stepSize tg) (m_initialWidth tg)
     (m_widthDecay tg) (m_leafSize tg) (m_branchColor tg) (m_leafColor tg)
     (m_flowerColor tg).

(** The configuration setters of the header. *)
Definition set3DMode (enable : bool) (tg : t) : t :=
  mk enable (m_currentState tg) (m_stateStack tg) (m_branches tg)
     (m_decorations tg) (m_leaves tg) (m_flowers tg) (m_stepSize tg)
     (m_initialWidth tg) (m_widthDecay tg) (m_leafSize tg) (m_branchColor tg)
     (m_leafColor tg) (m_flowerColor tg).

Definition setStepSize (step : float) (tg : t) : t :=
  mk (m_is3D tg) (m_currentState tg) (m_stateStack tg) (m_branches tg)
     (m_decorations tg) (m_leaves tg) (m_flowers tg) step
     (m_initialWidth tg) (m_widthDecay tg) (m_leafSize tg) (m_branchColor tg)
     (m_leafColor tg) (m_flowerColor tg).

Definition setInitialWidth (w : float) (tg : t) : t :=
  mk (m_is3D tg) (m_currentState tg) (m_stateStack tg) (m_branches tg)
     (m_decorations tg) (m_leaves tg) (m_flowers tg) (m_stepSize tg)
     w (m_widthDecay tg) (m_leafSize tg) (m_branchColor tg)
     (m_leafColor tg) (m_flowerColor tg).

Definition setWidthDecay (decay : float) (tg : t) : t :=
  mk (m_is3D tg) (m_currentState tg) (m_stateStack tg) (m_branches tg)
     (m_decorations tg) (m_leaves tg) (m_flowers tg) (m_stepSize tg)
     (m_initialWidth tg) decay (m_leafSize tg) (m_branchColor tg)
     (m_leafColor tg) (m_flowerColor tg).

Definition getBranchCount (tg : t) : nat := length (m_branches tg).
Definition getDecorationCount (tg : t) : nat := length (m_decorations tg).

(** Updates of single members of the current [TurtleState]. *)
Definition with_position (p : vec3) (st : TurtleState) : TurtleState :=
  mkState p (heading st) (left st) (up st) (width st) (color st) (depth st).
Definition with_heading (h : vec3) (st : TurtleState) : TurtleState :=
  mkState (position st) h (left st) (up st) (width st) (color st) (depth st).
Definition with_left (l : vec3) (st : TurtleState) : TurtleState :=
  mkState (position st) (heading st) l (up st) (width st) (color st) (depth st).
Definition with_up (u : vec3) (st : TurtleState) : TurtleState :=
  mkState (position st) (heading st) (left st) u (width st) (color st) (depth st).
Definition with_width (w : float) (st : TurtleState) : TurtleState :=
  mkState (position st) (heading st) (left st) (up st) w (color st) (depth st).
Definition with_color (c : vec3) (st : TurtleState) : TurtleState :=
  mkState (position st) (heading st) (left st) (up st) (width st) c (depth st).
Definition with_depth (d : Z) (st : TurtleState) : TurtleState :=
  mkState (position st) (heading st) (left st) (up st) (width st) (color st) d.

(** [void TurtleGraphics::clear()]. *)
Definition clear (tg : t) : t := set_decorations [] (set_branches [] tg).

(** [uploadBranchData] only fills GPU buffers.  [uploadDecorationData]
    returns early on an empty list and otherwise re-partitions the
    decorations into leaves ([type == 0]) and flowers. *)
Definition uploadBranchData (tg : t) : t := tg.

Definition uploadDecorationData (tg : t) : t :=
  match m_decorations tg with
  | [] => tg
  | _ =>
      set_leaves_flowers
        (filter (fun d => type d = 0) (m_decorations tg))
        (filter (fun d => type d ≠ 0) (m_decorations tg)) tg
  end.

Section WithLibm.

(** [std::cos] and [std::sin] on [float], from the C math library. *)
Variables cosf sinf : float -> float.

(** [rotateAroundAxis]: Rodrigues' rotation formula,
    [vec * cosA + cross(k, vec) * sinA + k * dot(k, vec) * (1 - cosA)]. *)
Definition rotateAroundAxis (vec axis : vec3) (angleDeg : float) : vec3 :=
  let angleRad := radians angleDeg in
  let cosA := cosf angleRad in
  let sinA := sinf angleRad in
  let k := normalize axis in
  vadd (vadd (vscale vec cosA) (vscale (cross k vec) sinA))
       (vscale (vscale k (dot k vec)) (Float32.one - cosA)%f32).

(** The orientation matrix of a decoration, built from the turtle
    frame. *)
Definition decoration_frame (st : TurtleState) : mat4 :=
  let forward := normalize (heading st) in
  let right := normalize (cross forward (up st)) in
  let up' := cross right forward in
  Mat4 (vec4_of right Float32.zero) (vec4_of forward Float32.zero)
       (vec4_of up' Float32.zero)
       (Vec4 Float32.zero Float32.zero Float32.zero Float32.one).

(** The yaw axis: [m_is3D ? m_currentState.up : glm::vec3(0, 0, 1)]. *)
Definition yaw_axis (tg : t) : vec3 :=
  if m_is3D tg then up (m_currentState tg)
  else Vec3 Float32.zero Float32.zero Float32.one.

(** [void TurtleGraphics::processCommand(char cmd, float angle)]:
    the [switch], case by case. *)
Definition processCommand (tg : t) (cmd : ascii) (angle : float) : t :=
  let st := m_currentState tg in
  match cmd with
  (* Movement *)
  | "F" | "G" | "A" | "B" =>
      let endPos := vadd (position st) (vscale (heading st) (m_stepSize tg)) in
      let branch :=
        {| start := position st;
           end_ := endPos;
           radiusStart := width st;
           radiusEnd := (width st * m_widthDecay tg)%f32;
           branch_color := color st |} in
      set_currentState (with_position endPos st)
        (set_branches (m_branches tg ++ [branch]) tg)
  | "f" =>
      set_currentState
        (with_position
           (vadd (position st) (vscale (heading st) (m_stepSize tg))) st) tg
  (* Rotation *)
  | "+" =>
      let axis := yaw_axis tg in
      let st1 := with_heading (rotateAroundAxis (heading st) axis angle) st in
      set_currentState
        (with_left (rotateAroundAxis (left st1) axis angle) st1) tg
  | "-" =>
      let axis := yaw_axis tg in
      let st1 := with_heading (rotateAroundAxis (heading st) axis (- angle)%f32) st in
      set_currentState
        (with_left (rotateAroundAxis (left st1) axis (- angle)%f32) st1) tg
  | "&" =>
      let st1 := with_heading (rotateAroundAxis (heading st) (left st) angle) st in
      set_currentState
        (with_up (rotateAroundAxis (up st1) (left st1) angle) st1) tg
  | "^" =>
      let st1 := with_heading (rotateAroundAxis (heading st) (left st) (- angle)%f32) st in
      set_currentState
        (with_up (rotateAroundAxis (up st1) (left st1) (- angle)%f32) st1) tg
  | "\" =>
      let st1 := with_left (rotateAroundAxis (left st) (heading st) angle) st in
      set_currentState
        (with_up (rotateAroundAxis (up st1) (heading st1) angle) st1) tg
  | "/" =>
      let st1 := with_left (rotateAroundAxis (left st) (heading st) (- angle)%f32) st in
      set_currentState
        (with_up (rotateAroundAxis (up st1) (heading st1) (- angle)%f32) st1) tg
  | "|" =>
      let axis := yaw_axis tg in
      let st1 := with_heading (rotateAroundAxis (heading st) axis (Float32.of_Z 180)) st in
      set_currentState
        (with_left (rotateAroundAxis (left st1) axis (Float32.of_Z 180)) st1) tg
  (* Branching *)
  | "[" =>
      let st1 := with_depth (depth st + 1) st in
      set_currentState
        (with_width (width st1 * m_widthDecay tg)%f32 st1)
        (set_stateStack (st :: m_stateStack tg) tg)
  | "]" =>
      match m_stateStack tg with
      | top :: rest => set_stateStack rest (set_currentState top tg)
      | [] => tg
      end
  (* Decorations *)
  | "L" | "l" =>
      let leaf :=
        {| decoration_position := position st;
           orientation := decoration_frame st;
           decoration_color := m_leafColor tg;
           size := m_leafSize tg;
           type := 0 |} in
      set_decorations (m_decorations tg ++ [leaf]) tg
  | "K" | "k" =>
      let flower :=
        {| decoration_position := position st;
           orientation := decoration_frame st;
           decoration_color := m_flowerColor tg;
           size := (m_leafSize tg * Float32.lit 15 10)%f32;
           type := 1 |} in
      set_decorations (m_decorations tg ++ [flower]) tg
  (* Modifiers *)
  | "!" =>
      set_currentState (with_width (width st * m_widthDecay tg)%f32 st) tg
  | "'" =>
      let c := color st in
      let c1 := Vec3 (x c) (Float32.min Float32.one (y c + Float32.lit 5 100)%f32) (z c) in
      let c2 := Vec3 (Float32.max Float32.zero (x c1 - Float32.lit 2 100)%f32) (y c1) (z c1) in
      set_currentState (with_color c2 st) tg
  (* Variables and unknown symbols are ignored *)
  | _ => tg
  end%char.

(** [for (char cmd : lsystemString) processCommand(cmd, angle);]. *)
Fixpoint run (tg : t) (commands : string) (angle : float) : t :=
  match commands with
  | EmptyString => tg
  | String cmd rest => run (processCommand tg cmd angle) rest angle
  end.

(** The state [interpret] starts the loop from: geometry cleared,
    the turtle reset to its defaults with the configured width and
    branch colour, the stack emptied. *)
Definition interpret_reset (tg : t) : t :=
  let st := with_color (m_branchColor tg)
              (with_width (m_initialWidth tg) TurtleState_default) in
  set_stateStack [] (set_currentState st (clear tg)).

(** [void TurtleGraphics::interpret(const std::string&, float)]. *)
Definition interpret (tg : t) (lsystemString : string) (angle : float) : t :=
  uploadDecorationData
    (uploadBranchData (run (interpret_reset tg) lsystemString angle)).

End WithLibm.

End TurtleGraphics.

(* ===================================================================== *)
(** * The [std::string] operations the parsers use                         *)
(* ===================================================================== *)

(** Positions are [size_t]; [std::string::npos], the largest [size_t],
    is [None]. *)
Module StdString.

(** [s.substr(n)] for [n <= s.size()] (the only way the source calls
    it), and [s.substr(0, n)]. *)
Fixpoint drop (n : nat) (s : string) : string :=
  match n, s with
  | O, _ => s
  | S n', String _ s' => drop n' s'
  | S _, EmptyString => EmptyString
  end.

Fixpoint take (n : nat) (s : string) : string :=
  match n, s with
  | O, _ => EmptyString
  | S n', String c s' => String c (take n' s')
  | S _, EmptyString => EmptyString
  end.

(** [s.find(pat)]: the position of the first occurrence. *)
Fixpoint find (pat s : string) : option nat :=
  if String.prefix pat s then Some O
  else
    match s with
    | EmptyString => None
    | String _ s' => option_map S (find pat s')
    end.

(** The characters of [" \t"]. *)
Definition is_blank (c : ascii) : bool :=
  Ascii.eqb c " " || Ascii.eqb c "009".

(** [s.find_first_not_of(" \t")]. *)
Fixpoint find_first_not_of_blank (s : string) : option nat :=
  match s with
  | EmptyString => None
  | String c s' =>
      if is_blank c then option_map S (find_first_not_of_blank s') else Some O
  end.

(** [std::min] on two positions, [npos] being the largest. *)
Definition min_pos (a b : option nat) : option nat :=
  match a, b with
  | Some i, Some j => Some (Nat.min i j)
  | Some i, None => Some i
  | None, _ => b
  end.

(** The successive results of [std::getline] on a stream with the given
    content: the text between line feeds; a last line needs no line
    feed, and nothing follows a final line feed. *)
Fixpoint getlines_from (line : string) (content : string) : list string :=
  match content with
  | EmptyString =>
      match line with
      | EmptyString => []
      | _ => [line]
      end
  | String c rest =>
      if Ascii.eqb c "010" then line :: getlines_from "" rest
      else getlines_from (line +:+ String c "") rest
  end.

Definition getlines (content : string) : list string := getlines_from "" content.

End StdString.

(* ===================================================================== *)
(** * Rule files: LSystem::loadRules                                       *)
(* ===================================================================== *)

Module LSystemFile.

Import LSystem StdString.

(** What a call can do: return a [bool], or let the exception of
    [std::stof] escape.  Both carry the object as the call leaves it. *)
Inductive outcome : Type :=
| Returned (result : bool) (ls : t)
| Threw (ls : t).

Definition object_of (o : outcome) : t :=
  match o with
  | Returned _ ls => ls
  | Threw ls => ls
  end.

Section WithEnvironment.

(** The file system, [None] for a file that cannot be opened, and
    [std::stof], [None] when it throws. *)
Variable read_file : string -> option string.
Variable stof : string -> option float.

(** The body of the [while (std::getline(file, line))] loop; [None]
    when [std::stof] throws. *)
Definition load_line (line : string) (ls : t) : option t :=
  match find_first_not_of_blank line with
  | None => Some ls
  | Some start =>
      let line := drop start line in
      if String.prefix "axiom:" line then
        let ax := drop 6 line in
        let ax :=
          match find_first_not_of_blank ax with
          | Some k => drop k ax
          | None => EmptyString
          end in
        Some {| axiom := ax; rules := rules ls; currentString := ax;
                angle := angle ls; currentGeneration := currentGeneration ls |}
      else if String.prefix "angle:" line then
        match stof (drop 6 line) with
        | Some a => Some (setAngle a ls)
        | None => None
        end
      else
        match find "->" line, line with
        | Some (S arrowPos), String symbol _ =>
            Some (addRule symbol (drop (S arrowPos + 2) line) ls)
        | _, _ => Some ls
        end
  end.

Fixpoint load_lines (lines : list string) (ls : t) : outcome :=
  match lines with
  | [] =>
      Returned true
        {| axiom := axiom ls; rules := rules ls; currentString := currentString ls;
           angle := angle ls; currentGeneration := 0 |}
  | line :: lines' =>
      match load_line line ls with
      | Some ls' => load_lines lines' ls'
      | None => Threw ls
      end
  end.

(** [bool LSystem::loadRules(const char* filename)]. *)
Definition loadRules (filename : string) (ls : t) : outcome :=
  match read_file filename with
  | None => Returned false ls
  | Some content => load_lines (getlines content) (clearRules ls)
  end.

End WithEnvironment.

End LSystemFile.

(* ===================================================================== *)
(** * The control panel: UI.h / UI.cpp                                     *)
(* ===================================================================== *)

Module UI.

Import StdString.

(** [struct LSystemPreset]. *)
Record LSystemPreset : Type := mkPreset {
  name : string;
  description : string;
  axiom : string;
  rules : string;
  angle : float;
  generations : Z;
  is3D : bool;
  useCylinders : bool
}.

(** [static const LSystemPreset PRESETS[]]. *)
Definition PRESETS : list LSystemPreset :=
  [ mkPreset "Pino 3D" "Arbol conifero con hojas verdes" "A"
      "A->F[&FLL!A]/////[&FLL!A]///////[&FLL!A]" (Float32.lit 225 10) 6 true true;
    mkPreset "Abeto 3D" "Arbol conifero denso con follaje" "A"
      "A->F[&FLLA]////[&FLLA]////[&FLLA]" (Float32.lit 257 10) 7 true true;
    mkPreset "Roble 3D" "Arbol robusto con copa frondosa" "A"
      "A->F[^FLLA]//[^FLLA]//[^FLLA]//[^FLLA]" (Float32.of_Z 30) 6 true true;
    mkPreset "Sauce 3D" "Arbol con hojas caidas elegantes" "A"
      "A->F[&F[&FLLA]//[&FLLA]]////F[&F[&FLLA]//[&FLLA]]" (Float32.lit 225 10) 5 true true;
    mkPreset "Magnolia 3D" "Arbol con flores grandes" "A"
      "A->FF[&FKK!A]////[&FKK!A]////[&FKK!A]" (Float32.of_Z 28) 5 true true;
    mkPreset "Cerezo 3D" "Arbol japones con flores rosadas" "A"
      "A->F[&FKK!A]////[&FKK!A]////[&FKK!A]" (Float32.of_Z 30) 5 true true;
    mkPreset "Helecho 2D" "Planta fractal clasica estilo Barnsley" "X"
      "X->F+[[X]-X]-F[-FX]+X,F->FF" (Float32.of_Z 25) 6 false false;
    mkPreset "Arbol Binario 2D" "Bifurcacion perfecta" "F"
      "F->FF+[+F-F-F]-[-F+F+F]" (Float32.lit 225 10) 4 false false;
    mkPreset "Arbusto 2D" "Arbusto ramificado natural" "F"
      "F->F[+F]F[-F][F]" (Float32.of_Z 20) 5 false false;
    mkPreset "Flor 2D" "Planta con flores en las puntas" "X"
      "X->F[+XK][-XK]FXK,F->FF" (Float32.lit 257 10) 5 false false;
    mkPreset "Curva Koch 2D" "Copo de nieve fractal" "F"
      "F->F+F--F+F" (Float32.of_Z 60) 4 false false;
    mkPreset "Sierpinski 2D" "Triangulo fractal clasico" "F-G-G"
      "F->F-G+F+G-F,G->GG" (Float32.of_Z 120) 5 false false;
    mkPreset "Dragon 2D" "Curva del dragon fractal" "FX"
      "X->X+YF+,Y->-FX-Y" (Float32.of_Z 90) 12 false false;
    mkPreset "Hilbert 2D" "Curva que llena el espacio" "X"
      "X->-YF+XFX+FY-,Y->+XF-YFY-FX+" (Float32.of_Z 90) 5 false false;
    mkPreset "Manzano 3D" "Arbol frutal con flores y hojas" "A"
      "A->F[&FLLKK!A]////[&FLLKK!A]////[&FLLKK!A]" (Float32.of_Z 25) 5 true true;
    mkPreset "Primavera 3D" "Arbol con hojas y flores mezcladas" "A"
      "A->F[&FLLK!A]////[&FKLL!A]////[&FLKL!A]" (Float32.of_Z 25) 5 true true;
    mkPreset "Bonsai 3D" "Arbol pequeno estilo japones" "A"
      "A->F[&^FLL!A]//[&&FLL!A]////[&^FLL!A]" (Float32.of_Z 35) 5 true true;
    mkPreset "Navidad 3D" "Pino decorado con ornamentos" "A"
      "A->F[&FKKLL!A]/////[&FLLKK!A]///////[&FKKLK!A]" (Float32.of_Z 20) 6 true true ].

(** [sizeof(PRESETS) / sizeof(PRESETS[0])]. *)
Definition NUM_PRESETS : Z := Z.of_nat (length PRESETS).

(** The members of [class UI] behind the grammar controls.  The two
    text buffers, [char m_axiom[256]] and [char m_rules[2048]], are
    held as the C strings they contain. *)
Record t : Type := mk {
  m_axiom : string;
  m_rules : string;
  m_angle : float;
  m_generations : Z;
  m_currentPreset : Z;
  m_is3DMode : bool;
  m_useCylinders : bool
}.

(** The default member initialisers. *)
Definition initial : t :=
  {| m_axiom := ""; m_rules := ""; m_angle := Float32.of_Z 25;
     m_generations := 4; m_currentPreset := 0;
     m_is3DMode := false; m_useCylinders := true |}.

(** [strncpy(dst, src, sizeof(dst) - 1); dst[sizeof(dst) - 1] = '\0';]
    keeps at most [sizeof(dst) - 1] characters. *)
Definition strncpy_buffer (size : nat) (src : string) : string :=
  take (size - 1) src.

(** [void UI::loadPreset(int index)]. *)
Definition loadPreset (index : Z) (ui : t) : t :=
  if (index <? 0) || (NUM_PRESETS <=? index) then ui
  else
    match nth_error PRESETS (Z.to_nat index) with
    | Some preset =>
        {| m_axiom := strncpy_buffer 256 (axiom preset);
           m_rules := strncpy_buffer 2048 (rules preset);
           m_angle := angle preset;
           m_generations := generations preset;
           m_currentPreset := m_currentPreset ui;
           m_is3DMode := is3D preset;
           m_useCylinders := useCylinders preset |}
    | None => ui
    end.

(** [ImGui::SliderInt("Generaciones", &m_generations, 1, 10)] writes
    the member directly. *)
Definition set_generations (n : Z) (ui : t) : t :=
  {| m_axiom := m_axiom ui; m_rules := m_rules ui; m_angle := m_angle ui;
     m_generations := n; m_currentPreset := m_currentPreset ui;
     m_is3DMode := m_is3DMode ui; m_useCylinders := m_useCylinders ui |}.

(** [void UI::applyPresetVisuals(TurtleGraphics&, const LSystemPreset&)];
    the render mode is a presentation choice that is not modelled. *)
Definition applyPresetVisuals (preset : LSystemPreset) (turtle : TurtleGraphics.t)
    : TurtleGraphics.t :=
  TurtleGraphics.set3DMode (is3D preset) turtle.

(** The body of the rule loop of the Generar button for one line. *)
Definition rule_line (line : string) (lsystem : LSystem.t) : LSystem.t :=
  let line :=
    match find_first_not_of_blank line with
    | Some start => drop start line
    | None => line
    end in
  match find "->" line, line with
  | Some (S arrowPos), String symbol _ =>
      LSystem.addRule symbol (drop (S arrowPos + 2) line) lsystem
  | _, _ => lsystem
  end.

(** [while (pos < rulesStr.size()) { ... }], on [rest], the text from
    [pos] on.  The line ends at the first line feed or comma, or at the
    end of the text; [pos] moves one past it.  Every round consumes a
    character, so [fuel] rounds are enough for a text of [fuel]
    characters. *)
Fixpoint rules_loop (fuel : nat) (rest : string) (lsystem : LSystem.t) : LSystem.t :=
  match fuel, rest with
  | O, _ => lsystem
  | _, EmptyString => lsystem
  | S fuel', _ =>
      let lineEnd :=
        match min_pos (find (String "010" "") rest) (find (String "," "") rest) with
        | Some k => k
        | None => String.length rest
        end in
      let line := take lineEnd rest in
      rules_loop fuel' (drop (lineEnd + 1) rest) (rule_line line lsystem)
  end.

Definition parse_rules (rulesStr : string) (lsystem : LSystem.t) : LSystem.t :=
  rules_loop (String.length rulesStr) rulesStr lsystem.

Section WithLibm.

Variables cosf sinf : float -> float.

(** The handler of the Generar button in [UI::renderLSystemWindow]. *)
Definition generate_button (ui : t) (lsystem : LSystem.t) (turtle : TurtleGraphics.t)
    : LSystem.t * TurtleGraphics.t :=
  let lsystem := LSystem.clearRules (LSystem.setAxiom (m_axiom ui) lsystem) in
  let lsystem := parse_rules (m_rules ui) lsystem in
  let lsystem := LSystem.setAngle (m_angle ui) lsystem in
  let lsystem := LSystem.generate (m_generations ui) lsystem in
  (lsystem,
   TurtleGraphics.interpret cosf sinf turtle (LSystem.getString lsystem) (m_angle ui)).

End WithLibm.

End UI.

(* ===================================================================== *)
(** * Vocabulary of the statements                                         *)
(* ===================================================================== *)

Module Float32Spec.

Import Float32.

(** What [k] right shifts of an exact record hold: the mantissa
    divided by [2 ^ k], and round or sticky bits set only when the
    division is inexact. *)
Definition shifted (m0 : Z) (k : Z) (mrs : shr_record) : Prop :=
  shr_m mrs = m0 / 2 ^ k
  /\ (shr_r mrs = true \/ shr_s mrs = true -> m0 mod 2 ^ k <> 0).

(** [m * 2 ^ e] is at most [mw * 2 ^ ew], for [e <= ew]. *)
Definition below (mw : positive) (ew : Z) (m e : Z) : Prop :=
  e <= ew /\ 0 <= m /\ m <= Zpos mw * 2 ^ (ew - e).

(** The mantissa and exponent of a valid finite binary32 number. *)
Definition canonical (m : positive) (e : Z) : Prop :=
  fexp prec emax (Zpos (digits2_pos m) + e) = e /\ e <= emax - prec.

(** A valid binary32 number that is a zero or positive and finite. *)
Definition nonneg_finite (f : float) : bool :=
  valid_binary prec emax f
  && match f with
     | S754_zero _ | S754_finite false _ _ => true
     | _ => false
     end.

(** A valid binary32 number between 0 and 1. *)
Definition in_unit_interval (d : float) : bool :=
  valid_binary prec emax d && leb zero d && leb d one.

(** An order-preserving numbering of the non-negative finite numbers. *)
Definition rank (f : float) : Z :=
  match f with
  | S754_finite false m e => (e + 150) * 2 ^ 24 + Zpos m
  | _ => 0
  end.

End Float32Spec.

Module LSystemSpec.

Import LSystem.

(** The image of one symbol under a rewriting pass. *)
Definition image (rs : gmap ascii string) (symbol : ascii) : string :=
  rewrite_symbol rs "" symbol.

(** Closed form of the outer loop. *)
Fixpoint passes (rs : gmap ascii string) (count : nat) (s : string) : string :=
  match count with
  | O => s
  | S count' => passes rs count' (rewrite_from rs "" s)
  end.

End LSystemSpec.

Module TurtleSpec.

Import Glm TurtleGraphics.

(** The draw-forward symbols: the first [case] group of the switch. *)
Definition is_draw (cmd : ascii) : bool :=
  match cmd with
  | "F" | "G" | "A" | "B" => true
  | _ => false
  end%char.

Fixpoint count_draw (s : string) : nat :=
  match s with
  | EmptyString => O
  | String c s' => ((if is_draw c then 1 else 0) + count_draw s')%nat
  end.

(** The record a draw-forward command emits in a given object. *)
Definition branch_of (tg : t) : BranchData :=
  let st := m_currentState tg in
  {| start := position st;
     end_ := vadd (position st) (vscale (heading st) (m_stepSize tg));
     radiusStart := width st;
     radiusEnd := (width st * m_widthDecay tg)%f32;
     branch_color := color st |}.

(** Every character of a string satisfies a test. *)
Fixpoint all_chars (p : ascii -> bool) (s : string) : bool :=
  match s with
  | EmptyString => true
  | String c s' => p c && all_chars p s'
  end.

(** Nesting depth after [s] when it starts at depth [d]; [None] when
    some ']' of [s] has no matching '['. *)
Fixpoint bracket_depth (d : nat) (s : string) : option nat :=
  match s with
  | EmptyString => Some d
  | String c s' =>
      if Ascii.eqb c "[" then bracket_depth (S d) s'
      else if Ascii.eqb c "]" then
        match d with
        | O => None
        | S d' => bracket_depth d' s'
        end
      else bracket_depth d s'
  end.

(** Balanced brackets: every ']' closes an earlier '[' of the string
    and every '[' is closed. *)
Definition balanced (s : string) : bool :=
  match bracket_depth 0 s with
  | Some O => true
  | _ => false
  end.

(** Neither a push nor a width-decay command. *)
Definition no_push_or_decay (c : ascii) : bool :=
  negb (Ascii.eqb c "[" || Ascii.eqb c "!").

(** Neither a push, a width-decay nor a pop command. *)
Definition no_push_decay_or_pop (c : ascii) : bool :=
  negb (Ascii.eqb c "[" || Ascii.eqb c "!" || Ascii.eqb c "]").

Definition is_pop (c : ascii) : bool := Ascii.eqb c "]".

(** The members set through the configuration setters, which no
    command writes. *)
Definition config (tg : t) :=
  (m_is3D tg, m_stepSize tg, m_initialWidth tg, m_widthDecay tg,
   m_leafSize tg, m_branchColor tg, m_leafColor tg, m_flowerColor tg).

(** The widths met between two draw commands when every pop in
    between closes a push in between, relative to the start radius
    [w1] and the end radius [e1] of the first branch.  Outside every
    such push the width is still [w1] or is at most [e1]; inside one
    it is at most [e1]. *)
Definition thin (w1 e1 : float) (deep : bool) (w : float) : Prop :=
  Float32Spec.nonneg_finite w = true
  /\ (if deep then Float32.leb w e1 = true
      else w = w1 \/ Float32.leb w e1 = true).

Definition has_saved (saved : list TurtleState) : bool :=
  match saved with
  | [] => false
  | _ :: _ => true
  end.

(** The states pushed since the first draw command, innermost first:
    each was the current state at the depth of the ones below it. *)
Fixpoint saved_widths (w1 e1 : float) (saved : list TurtleState) : Prop :=
  match saved with
  | [] => True
  | st :: rest => thin w1 e1 (has_saved rest) (width st) /\ saved_widths w1 e1 rest
  end.

End TurtleSpec.

(** The C math library is outside the repository, and the statements
    about the interpreter hold for every [cosf] and [sinf].  To evaluate
    the interpreter on concrete inputs, the two functions are tabulated
    here at the arguments those evaluations reach: zero and a quarter
    turn, [glm::radians(90.0f) = 0x3FC90FDB], of either sign.  The
    entries are the correctly rounded values, which glibc returns:
    [cosf(0x3FC90FDB) = 0xB33BBD2E] (about -4.37e-8) and
    [sinf(0x3FC90FDB) = 1.0f].  Outside the table the result is NaN. *)
Module Libm.

Definition quarter_turn : float := Glm.radians (Float32.of_Z 90).

Definition cos_quarter_turn : float := Float32.of_bits 0xB33BBD2E.

Definition cosf_table (v : float) : float :=
  match v with
  | S754_zero _ => Float32.one
  | _ => if SFeqb (SFabs v) quarter_turn then cos_quarter_turn else S754_nan
  end.

Definition sinf_table (v : float) : float :=
  match v with
  | S754_zero _ => v
  | _ =>
      if SFeqb v quarter_turn then Float32.one
      else if SFeqb v (- quarter_turn)%f32 then (- Float32.one)%f32
      else S754_nan
  end.

End Libm.

(* ===================================================================== *)
(** * Further vocabulary: grammars                                         *)
(* ===================================================================== *)

Module GrammarSpec.

Import LSystem.

(** Every replacement of the rule map satisfies a test. *)
Definition all_replacements (p : string -> bool) (rs : gmap ascii string) : bool :=
  forallb (fun cr => p (snd cr)) (map_to_list rs).

Definition nonempty (s : string) : bool :=
  match s with
  | EmptyString => false
  | String _ _ => true
  end.

(** No rule erases its symbol. *)
Definition nonerasing (rs : gmap ascii string) : bool :=
  all_replacements nonempty rs.

(** The brackets are constants and every replacement has balanced
    brackets. *)
Definition bracket_safe (rs : gmap ascii string) : bool :=
  bool_decide (rs !! "["%char = None)
  && bool_decide (rs !! "]"%char = None)
  && all_replacements TurtleSpec.balanced rs.

End GrammarSpec.

(* ===================================================================== *)
(** * Further vocabulary: rule texts                                       *)
(* ===================================================================== *)

Module ParserSpec.

Import StdString.

(** The position of the first character that satisfies a test. *)
Fixpoint index_where (p : ascii -> bool) (s : string) : option nat :=
  match s with
  | EmptyString => None
  | String c s' => if p c then Some O else option_map S (index_where p s')
  end.

(** The two separators of the rule box: line feed and comma. *)
Definition is_separator (c : ascii) : bool :=
  Ascii.eqb c "010" || Ascii.eqb c ",".

(** The pieces of a text between separators; a last piece needs no
    separator, and nothing follows a final separator. *)
Fixpoint split_from (p : ascii -> bool) (line : string) (text : string) : list string :=
  match text with
  | EmptyString =>
      match line with
      | EmptyString => []
      | _ => [line]
      end
  | String c rest =>
      if p c then line :: split_from p "" rest
      else split_from p (line +:+ String c "") rest
  end.

Definition split_rules (text : string) : list string :=
  split_from is_separator "" text.

(** A text with every comma turned into a line feed. *)
Fixpoint commas_to_line_feeds (text : string) : string :=
  match text with
  | EmptyString => EmptyString
  | String c rest =>
      String (if Ascii.eqb c "," then "010"%char else c) (commas_to_line_feeds rest)
  end.

(** A line with its leading blanks removed, as both parsers see it; a
    line of blanks only is left as it is. *)
Definition trimmed (line : string) : string :=
  match find_first_not_of_blank line with
  | Some start => drop start line
  | None => line
  end.

Definition is_axiom_line (line : string) : bool := String.prefix "axiom:" (trimmed line).
Definition is_angle_line (line : string) : bool := String.prefix "angle:" (trimmed line).

(** A line that is neither an axiom nor an angle line. *)
Definition is_plain_line (line : string) : bool :=
  negb (is_axiom_line line) && negb (is_angle_line line).

(** An angle line whose text [std::stof] does not accept: the line on
    which the loader throws. *)
Definition rejected (stof : string -> option float) (line : string) : bool :=
  negb (is_axiom_line line) && is_angle_line line
  && match stof (drop 6 (trimmed line)) with
     | Some _ => false
     | None => true
     end.

Definition no_comma (c : ascii) : bool := negb (Ascii.eqb c ",").

(** The object with its generation counter set to 0. *)
Definition generation_zeroed (ls : LSystem.t) : LSystem.t :=
  {| LSystem.axiom := LSystem.axiom ls; LSystem.rules := LSystem.rules ls;
     LSystem.currentString := LSystem.currentString ls;
     LSystem.angle := LSystem.angle ls; LSystem.currentGeneration := 0 |}.

End ParserSpec.

(** A small file system and the values of [std::stof] on its angle
    texts, to evaluate the loader on. *)
Module SampleFiles.

Definition nl : string := String "010" "".

Definition koch_file : string :=
  "axiom: F" +:+ nl +:+ "angle: 60" +:+ nl +:+ "  F->F+F--F+F" +:+ nl.

Definition rules_only_file : string :=
  "A->AB" +:+ nl +:+ nl +:+ "B->A".

Definition bad_angle_file : string :=
  "A->AB" +:+ nl +:+ "angle: sixty" +:+ nl +:+ "B->A" +:+ nl.

(** The documented layout, with an angle that does not parse. *)
Definition bad_angle_after_axiom_file : string :=
  "axiom: F" +:+ nl +:+ "F->FF" +:+ nl +:+ "angle: sixty" +:+ nl +:+ "F->F+F" +:+ nl.

Definition read_file (filename : string) : option string :=
  if String.eqb filename "koch.txt" then Some koch_file
  else if String.eqb filename "rules.txt" then Some rules_only_file
  else if String.eqb filename "bad.txt" then Some bad_angle_file
  else None.

Definition stof (text : string) : option float :=
  if String.eqb text " 60" then Some (Float32.of_Z 60) else None.

End SampleFiles.

(* ===================================================================== *)
(** * Further vocabulary: interpretation                                   *)
(* ===================================================================== *)

Module TurtleSpecMore.

Import Glm TurtleGraphics TurtleSpec.

(** The leaf and the flower symbols. *)
Definition is_leaf (c : ascii) : bool := Ascii.eqb c "L" || Ascii.eqb c "l".
Definition is_flower (c : ascii) : bool := Ascii.eqb c "K" || Ascii.eqb c "k".

Fixpoint count_chars (p : ascii -> bool) (s : string) : nat :=
  match s with
  | EmptyString => O
  | String c s' => ((if p c then 1 else 0) + count_chars p s')%nat
  end.

(** The type tags of the decorations of a string, in command order. *)
Fixpoint decoration_types (s : string) : list Z :=
  match s with
  | EmptyString => []
  | String c s' =>
      if is_leaf c then 0 :: decoration_types s'
      else if is_flower c then 1 :: decoration_types s'
      else decoration_types s'
  end.

(** The number of '[' still open after a string read from [d] open
    ones, a ']' with nothing open being skipped. *)
Fixpoint open_brackets (d : nat) (s : string) : nat :=
  match s with
  | EmptyString => d
  | String c s' =>
      if Ascii.eqb c "[" then open_brackets (S d) s'
      else if Ascii.eqb c "]" then open_brackets (Nat.pred d) s'
      else open_brackets d s'
  end.

(** A string with every draw-forward symbol replaced by the move
    symbol f. *)
Fixpoint undrawn (s : string) : string :=
  match s with
  | EmptyString => EmptyString
  | String c s' => String (if is_draw c then "f"%char else c) (undrawn s')
  end.

(** Everything of the object but the two lists that
    uploadDecorationData derives. *)
Definition core (tg : t) :=
  (config tg, m_currentState tg, m_stateStack tg, m_branches tg, m_decorations tg).

(** Neither the move symbol f nor a pop. *)
Definition no_move_or_pop (c : ascii) : bool :=
  negb (Ascii.eqb c "f" || Ascii.eqb c "]").

(** Each segment starts where the one before it ends. *)
Fixpoint connected (from : vec3) (bs : list BranchData) : Prop :=
  match bs with
  | [] => True
  | b :: bs' => start b = from /\ connected (end_ b) bs'
  end.

(** The stack of a run that started with an empty stack and depth 0:
    the entry below [k] others was saved at depth [k]. *)
Fixpoint stack_depths (stk : list TurtleState) : Prop :=
  match stk with
  | [] => True
  | st :: stk' => depth st = Z.of_nat (length stk') /\ stack_depths stk'
  end.

(** Widths that are non-negative finite numbers not above [w0], in the
    current state, on the stack and in the branches emitted. *)
Definition widths_bounded (w0 : float) (tg : t) : Prop :=
  let ok w := Float32Spec.nonneg_finite w = true /\ Float32.leb w w0 = true in
  ok (width (m_currentState tg))
  /\ Forall (fun st => ok (width st)) (m_stateStack tg)
  /\ Forall (fun b => ok (radiusStart b)) (m_branches tg).

End TurtleSpecMore.

(* ===================================================================== *)
(** * Further vocabulary: presets                                          *)
(* ===================================================================== *)

Module PresetSpec.

Import TurtleSpec GrammarSpec.

(** None of the pitch and roll symbols. *)
Definition no_pitch_or_roll (c : ascii) : bool :=
  negb (Ascii.eqb c "&" || Ascii.eqb c "^" || Ascii.eqb c "\" || Ascii.eqb c "/").

(** The rule map that the rule box derives from the text of a preset. *)
Definition preset_rules (p : UI.LSystemPreset) : gmap ascii string :=
  LSystem.rules (UI.parse_rules (UI.rules p) LSystem.new).

(** The texts of a preset fit the two buffers of the panel. *)
Definition preset_fits (p : UI.LSystemPreset) : bool :=
  (String.length (UI.axiom p) <? 256)%nat && (String.length (UI.rules p) <? 2048)%nat.

Definition preset_bracket_safe (p : UI.LSystemPreset) : bool :=
  balanced (UI.axiom p) && bracket_safe (preset_rules p).

(** A preset for 2D mode uses no pitch or roll symbol. *)
Definition preset_planar (p : UI.LSystemPreset) : bool :=
  UI.is3D p
  || (all_chars no_pitch_or_roll (UI.axiom p)
      && all_replacements (all_chars no_pitch_or_roll) (preset_rules p)).

(** The panel after a preset is loaded without truncation. *)
Definition panel_of (p : UI.LSystemPreset) (ui : UI.t) : UI.t :=
  {| UI.m_axiom := UI.axiom p; UI.m_rules := UI.rules p; UI.m_angle := UI.angle p;
     UI.m_generations := UI.generations p; UI.m_currentPreset := UI.m_currentPreset ui;
     UI.m_is3DMode := UI.is3D p; UI.m_useCylinders := UI.useCylinders p |}.

End PresetSpec.

(* ===================================================================== *)
(** * Properties of binary32 multiplication                                *)
(* ===================================================================== *)

(** The width of a branch is multiplied by the decay factor at every
    push.  This module shows, on the bit-level definition of the
    rounded product, that a factor between 0 and 1 never increases a
    non-negative finite width and that the product is again a valid
    binary32 number. *)
Module Float32Facts.

Import Float32 Float32Spec.

Lemma digits2_pos_size p : digits2_pos p = Pos.size p.
Proof. induction p; simpl; congruence. Qed.

Lemma digits2_log2 p : Zpos (digits2_pos p) = Z.log2 (Zpos p) + 1.
Proof.
  rewrite digits2_pos_size.
  destruct p; simpl; lia.
Qed.

Lemma Zdigits2_log2 m : 0 < m -> Zdigits2 m = Z.log2 m + 1.
Proof. destruct m; try lia. intros _. apply digits2_log2. Qed.

(** iterating shr_1 *)
Lemma iter_pos_nat {A} (f : A -> A) p : forall x,
  @SpecFloat.iter_pos A f p x = Nat.iter (Pos.to_nat p) f x.
Proof.
  induction p as [p IH|p IH|]; intros x; cbn [SpecFloat.iter_pos].
  - rewrite !IH, Pos2Nat.inj_xI.
    replace (S (2 * Pos.to_nat p)) with (Pos.to_nat p + S (Pos.to_nat p))%nat by lia.
    rewrite Nat.iter_add, Nat.iter_succ_r. reflexivity.
  - rewrite !IH, Pos2Nat.inj_xO.
    replace (2 * Pos.to_nat p)%nat with (Pos.to_nat p + Pos.to_nat p)%nat by lia.
    rewrite Nat.iter_add. reflexivity.
  - reflexivity.
Qed.

Lemma shr_1_m mrs : 0 <= shr_m mrs -> shr_m (shr_1 mrs) = shr_m mrs / 2.
Proof.
  destruct mrs as [m r s]. cbn [shr_m]. intros Hm.
  destruct m as [|p|p]; try lia; [reflexivity|].
  destruct p as [p|p|]; cbn [shr_1 shr_m].
  - rewrite Pos2Z.inj_xI. apply Z.div_unique with 1; lia.
  - rewrite Pos2Z.inj_xO. apply Z.div_unique with 0; lia.
  - reflexivity.
Qed.

Lemma shr_1_r mrs : 0 <= shr_m mrs -> shr_r (shr_1 mrs) = Z.odd (shr_m mrs).
Proof.
  destruct mrs as [m r s]. cbn [shr_m]. intros Hm.
  destruct m as [|p|p]; try lia; [reflexivity|].
  destruct p; reflexivity.
Qed.

Lemma shr_1_s mrs : shr_s (shr_1 mrs) = shr_r mrs || shr_s mrs.
Proof. destruct mrs as [m r s]. destruct m as [|p|p]; try destruct p; reflexivity. Qed.

Lemma shifted_step m0 k mrs :
  0 <= m0 -> 0 <= k -> shifted m0 k mrs -> shifted m0 (k + 1) (shr_1 mrs).
Proof.
  intros Hm0 Hk [Hm Hrs].
  assert (Hpos : 0 < 2 ^ k) by (apply Z.pow_pos_nonneg; lia).
  assert (Hnn : 0 <= shr_m mrs) by (rewrite Hm; apply Z.div_pos; lia).
  assert (Hpow : 2 ^ (k + 1) = 2 ^ k * 2) by (rewrite Z.pow_add_r; lia).
  assert (Hmod : m0 mod 2 ^ (k + 1) = m0 mod 2 ^ k + 2 ^ k * ((m0 / 2 ^ k) mod 2)).
  { rewrite Hpow. apply Z.rem_mul_r; lia. }
  split.
  - rewrite shr_1_m by assumption. rewrite Hm, Hpow. apply Z.div_div; lia.
  - rewrite shr_1_r by assumption. rewrite shr_1_s.
    pose proof (Z.mod_pos_bound m0 (2 ^ k) Hpos) as Hb.
    pose proof (Z.mod_pos_bound (m0 / 2 ^ k) 2 ltac:(lia)) as Hb2.
    intros [Hodd | Hor].
    + rewrite Hm, <- Z.bit0_odd in Hodd.
      pose proof (Z.bit0_mod (m0 / 2 ^ k)) as Hbit.
      rewrite Hodd in Hbit. cbn [Z.b2z] in Hbit. nia.
    + apply orb_true_iff in Hor. specialize (Hrs Hor). nia.
Qed.

Lemma shifted_iter m0 (n : nat) :
  0 <= m0 ->
  shifted m0 (Z.of_nat n) (Nat.iter n shr_1 (Build_shr_record m0 false false)).
Proof.
  intros Hm0. induction n as [|n IH].
  - cbn. split; [now rewrite Z.div_1_r|]. intros [H|H]; discriminate H.
  - rewrite Nat2Z.inj_succ. cbn [Nat.iter]. apply shifted_step; [lia|lia|exact IH].
Qed.

Lemma fexp32 v : fexp prec emax v = Z.max (v - 24) (-149).
Proof. reflexivity. Qed.

(** [shr_fexp] on an exact non-negative mantissa: either nothing is
    shifted, or the mantissa is divided by a power of two and the
    round and sticky bits are set only if the division is inexact. *)
Lemma shr_fexp_exact m e mrs e' :
  0 <= m ->
  shr_fexp prec emax m e loc_Exact = (mrs, e') ->
  let n := fexp prec emax (Zdigits2 m + e) - e in
  (n <= 0 /\ mrs = Build_shr_record m false false /\ e' = e)
  \/ (0 < n /\ e' = e + n /\ shifted m n mrs).
Proof.
  intros Hm H n. unfold shr_fexp, shr in H. fold n in H.
  cbn [shr_record_of_loc] in H.
  destruct n as [|p|p] eqn:En.
  - left. inversion H. repeat split; lia.
  - right. inversion H. subst. repeat split; try lia.
    all: rewrite iter_pos_nat, <- (positive_nat_Z p); apply shifted_iter; assumption.
  - left. inversion H. repeat split; lia.
Qed.

Section BelowCanonical.

(** A canonical positive number [mw * 2 ^ ew]. *)
Variables (mw : positive) (ew : Z).
Hypothesis Hcanon : fexp prec emax (Zpos (digits2_pos mw) + ew) = ew.

Local Abbreviation below := (Float32Spec.below mw ew).

Lemma below_exponent m e :
  below m e -> fexp prec emax (Zdigits2 m + e) <= ew.
Proof.
  intros (He & Hm & Hle).
  pose proof Hcanon as Hc. rewrite fexp32, digits2_log2 in Hc. rewrite fexp32.
  destruct (Z.eq_dec m 0) as [->|Hne].
  - cbn [Zdigits2]. pose proof (Z.log2_nonneg (Zpos mw)). lia.
  - rewrite Zdigits2_log2 by lia.
    assert (Z.log2 m <= Z.log2 (Zpos mw) + (ew - e)).
    { rewrite Z.add_comm, <- Z.log2_mul_pow2 by lia.
      apply Z.log2_le_mono. lia. }
    lia.
Qed.

(** One [shr_fexp] keeps a number below the bound, and a set round
    bit leaves room for rounding up. *)
Lemma below_shr_fexp m e mrs e' :
  below m e ->
  shr_fexp prec emax m e loc_Exact = (mrs, e') ->
  below (shr_m mrs) e'
  /\ (shr_r mrs = true -> below (shr_m mrs + 1) e').
Proof.
  intros Hb H. pose proof (below_exponent m e Hb) as Hexp.
  destruct Hb as (He & Hm & Hle).
  destruct (shr_fexp_exact m e mrs e' Hm H) as [(Hn & -> & ->) | (Hn & -> & Hsh & Hrs)].
  - cbn [shr_m shr_r]. split; [repeat split; assumption|]. intros Hf. discriminate Hf.
  - set (n := fexp prec emax (Zdigits2 m + e) - e) in *.
    assert (Hpn : 0 < 2 ^ n) by (apply Z.pow_pos_nonneg; lia).
    assert (Hsplit : 2 ^ (ew - e) = 2 ^ (ew - (e + n)) * 2 ^ n).
    { rewrite <- Z.pow_add_r by lia. f_equal. lia. }
    set (K := Zpos mw * 2 ^ (ew - (e + n))) in *.
    assert (HK : m <= K * 2 ^ n) by (unfold K; rewrite <- Z.mul_assoc, <- Hsplit; exact Hle).
    pose proof (Z.div_mod m (2 ^ n) ltac:(lia)) as Hdm.
    pose proof (Z.mod_pos_bound m (2 ^ n) Hpn) as Hmb.
    assert (Hq : 0 <= m / 2 ^ n) by (apply Z.div_pos; lia).
    rewrite Hsh. split.
    + repeat split; try lia. fold K. nia.
    + intros Hr. specialize (Hrs (or_introl Hr)).
      repeat split; try lia. fold K. nia.
Qed.

Lemma below_round_nearest_even mrs e :
  below (shr_m mrs) e ->
  (shr_r mrs = true -> below (shr_m mrs + 1) e) ->
  below (round_nearest_even (shr_m mrs) (loc_of_shr_record mrs)) e.
Proof.
  intros Hb Hup. destruct mrs as [m r s]. cbn [shr_m shr_r] in *.
  destruct r, s; cbn [loc_of_shr_record round_nearest_even]; auto.
  destruct (Z.even m); auto.
Qed.

(** The full rounding of [binary_round_aux]. *)
Lemma below_binary_round_aux m e :
  below m e ->
  ew <= emax - prec ->
  match binary_round_aux prec emax false m e loc_Exact with
  | S754_zero s => s = false
  | S754_finite s m' e' => s = false /\ below (Zpos m') e'
  | _ => False
  end.
Proof.
  intros Hb Hbound. unfold binary_round_aux.
  destruct (shr_fexp prec emax m e loc_Exact) as [mrs1 e1] eqn:E1.
  destruct (below_shr_fexp m e mrs1 e1 Hb E1) as [Hb1 Hup1].
  pose proof (below_round_nearest_even mrs1 e1 Hb1 Hup1) as Hb1'.
  destruct (shr_fexp prec emax _ e1 loc_Exact) as [mrs2 e2] eqn:E2.
  destruct (below_shr_fexp _ e1 mrs2 e2 Hb1' E2) as [Hb2 _].
  destruct (shr_m mrs2) as [|p|p] eqn:Em.
  - reflexivity.
  - destruct Hb2 as (He2 & ? & ?).
    replace (e2 <=? emax - prec) with true by (symmetry; apply Z.leb_le; lia).
    repeat split; assumption.
  - destruct Hb2 as (_ & Hneg & _). lia.
Qed.

End BelowCanonical.

(** ** Canonical results *)

(** A [shr_fexp] that does shift (or has nothing to shift) returns a
    canonical mantissa, or zero. *)
Lemma shr_fexp_canonical m e mrs e' :
  0 < m ->
  e <= fexp prec emax (Zdigits2 m + e) ->
  shr_fexp prec emax m e loc_Exact = (mrs, e') ->
  0 <= shr_m mrs /\ shr_m mrs <= m
  /\ (0 < shr_m mrs -> fexp prec emax (Zdigits2 (shr_m mrs) + e') = e')
  /\ (shr_m mrs = 0 -> e' = -149).
Proof.
  intros Hm Hn H.
  destruct (shr_fexp_exact m e mrs e' ltac:(lia) H) as [(Hn0 & -> & ->) | (Hn0 & -> & Hsh & _)].
  - cbn [shr_m]. repeat split; try lia.
  - set (n := fexp prec emax (Zdigits2 m + e) - e) in *.
    assert (Hpn : 0 < 2 ^ n) by (apply Z.pow_pos_nonneg; lia).
    assert (Hq : 0 <= m / 2 ^ n) by (apply Z.div_pos; lia).
    assert (Hqm : m / 2 ^ n <= m).
    { pose proof (Z.div_mod m (2 ^ n) ltac:(lia)). pose proof (Z.mod_pos_bound m (2 ^ n) Hpn). nia. }
    rewrite Hsh. repeat split; try assumption.
    + intros Hpos.
      rewrite (Zdigits2_log2 _ Hpos), <- Z.shiftr_div_pow2, Z.log2_shiftr by lia.
      assert (n <= Z.log2 m).
      { apply Z.log2_le_pow2; [lia|].
        pose proof (Z.div_mod m (2 ^ n) ltac:(lia)). pose proof (Z.mod_pos_bound m (2 ^ n) Hpn). nia. }
      replace (Z.max 0 (Z.log2 m - n) + 1 + (e + n)) with (Zdigits2 m + e)
        by (rewrite (Zdigits2_log2 m Hm); lia).
      unfold n. lia.
    + intros Hz.
      assert (Hlt : m < 2 ^ n).
      { pose proof (Z.div_mod m (2 ^ n) ltac:(lia)). pose proof (Z.mod_pos_bound m (2 ^ n) Hpn). nia. }
      apply Z.log2_lt_pow2 in Hlt; [|lia].
      unfold n in *. rewrite fexp32 in *. rewrite (Zdigits2_log2 m Hm) in *. lia.
Qed.

Lemma round_nearest_even_bounds m l :
  m <= round_nearest_even m l <= m + 1.
Proof. destruct l as [|[| |]]; cbn; try lia. destruct (Z.even m); lia. Qed.

Lemma Zdigits2_mono a b : 0 <= a <= b -> Zdigits2 a <= Zdigits2 b.
Proof.
  intros [Ha Hab]. destruct (Z.eq_dec a 0) as [->|Hne].
  - destruct b; cbn; lia.
  - rewrite !Zdigits2_log2 by lia. pose proof (Z.log2_le_mono a b Hab). lia.
Qed.

(** [binary_round_aux] returns a valid binary32 number. *)
Lemma binary_round_aux_valid s m e :
  0 < m ->
  e <= fexp prec emax (Zdigits2 m + e) ->
  valid_binary prec emax (binary_round_aux prec emax s m e loc_Exact) = true.
Proof.
  intros Hm Hn. unfold binary_round_aux.
  destruct (shr_fexp prec emax m e loc_Exact) as [mrs1 e1] eqn:E1.
  destruct (shr_fexp_canonical m e mrs1 e1 Hm Hn E1) as (Hq0 & _ & Hqc & Hqz).
  set (m1 := round_nearest_even (shr_m mrs1) (loc_of_shr_record mrs1)).
  pose proof (round_nearest_even_bounds (shr_m mrs1) (loc_of_shr_record mrs1)) as Hm1.
  fold m1 in Hm1.
  destruct (shr_fexp prec emax m1 e1 loc_Exact) as [mrs2 e2] eqn:E2.
  destruct (Z.eq_dec m1 0) as [Hz|Hnz].
  - destruct (shr_fexp_exact m1 e1 mrs2 e2 ltac:(lia) E2) as [(_ & -> & _) | (Hn0 & _ & Hsh & _)].
    + cbn [shr_m]. rewrite Hz. reflexivity.
    + rewrite Hsh, Hz, Zdiv_0_l. reflexivity.
  - assert (Hm1pos : 0 < m1) by lia.
    assert (Hn2 : e1 <= fexp prec emax (Zdigits2 m1 + e1)).
    { destruct (Z.eq_dec (shr_m mrs1) 0) as [Hq|Hq].
      - rewrite (Hqz Hq), fexp32. lia.
      - specialize (Hqc ltac:(lia)).
        pose proof (Zdigits2_mono (shr_m mrs1) m1 ltac:(lia)).
        rewrite fexp32 in *. lia. }
    destruct (shr_fexp_canonical m1 e1 mrs2 e2 Hm1pos Hn2 E2) as (Hq2 & _ & Hq2c & _).
    destruct (shr_m mrs2) as [|p|p] eqn:Em; [reflexivity| |lia].
    destruct (e2 <=? emax - prec) eqn:Eb; [|reflexivity].
    cbn [valid_binary]. unfold bounded, canonical_mantissa.
    rewrite Eb, andb_true_r. apply Z.eqb_eq. apply Hq2c. lia.
Qed.

(** ** Well-formed operands *)

Lemma valid_finite_canonical s m e :
  valid_binary prec emax (S754_finite s m e) = true <-> canonical m e.
Proof.
  cbn [valid_binary]. unfold bounded, canonical_mantissa, canonical.
  rewrite andb_true_iff, Z.eqb_eq, Z.leb_le. reflexivity.
Qed.

Lemma canonical_bounds m e :
  canonical m e -> -149 <= e <= 104 /\ Zpos m < 2 ^ 24.
Proof.
  intros [Hc Hb]. rewrite fexp32, digits2_log2 in Hc.
  change (emax - prec) with 104 in Hb.
  split; [lia|].
  apply Z.log2_lt_pow2; lia.
Qed.

(** The product of two valid numbers is valid. *)
Lemma mul_valid a b :
  valid_binary prec emax a = true ->
  valid_binary prec emax b = true ->
  valid_binary prec emax (mul a b) = true.
Proof.
  intros Ha Hb. unfold mul.
  destruct a as [sa|sa| |sa ma ea], b as [sb|sb| |sb mb eb]; try reflexivity.
  cbn [SFmul]. apply binary_round_aux_valid; [lia|].
  apply valid_finite_canonical in Ha, Hb. destruct Ha as [Ha _], Hb as [Hb _].
  rewrite fexp32, digits2_log2 in Ha, Hb.
  rewrite fexp32, Zdigits2_log2 by lia.
  assert (Z.log2 (Zpos ma) <= Z.log2 (Zpos (ma * mb))).
  { apply Z.log2_le_mono. rewrite Pos2Z.inj_mul. nia. }
  assert (Z.log2 (Zpos mb) <= Z.log2 (Zpos (ma * mb))).
  { apply Z.log2_le_mono. rewrite Pos2Z.inj_mul. nia. }
  lia.
Qed.

(** ** Order *)

Lemma pos_compare_cont_le (a b : positive) :
  match Pos.compare_cont Eq a b with Gt => False | _ => True end <-> (Zpos a <= Zpos b).
Proof.
  change (Pos.compare_cont Eq a b) with (Pos.compare a b).
  rewrite Pos2Z.inj_compare.
  destruct (Z.compare_spec (Zpos a) (Zpos b)); split; intros; try tauto; lia.
Qed.

Lemma leb_rank a b :
  nonneg_finite a = true -> nonneg_finite b = true ->
  (leb a b = true <-> rank a <= rank b).
Proof.
  unfold nonneg_finite. intros Ha Hb.
  apply andb_true_iff in Ha as [Hva Hsa], Hb as [Hvb Hsb].
  destruct a as [sa|sa| |[|] ma ea]; try discriminate Hsa;
    destruct b as [sb|sb| |[|] mb eb]; try discriminate Hsb;
    try (apply valid_finite_canonical, canonical_bounds in Hva);
    try (apply valid_finite_canonical, canonical_bounds in Hvb);
    unfold leb, SFleb; cbn [SFcompare rank].
  - split; [lia | reflexivity].
  - split; [lia | reflexivity].
  - split; [discriminate | lia].
  - destruct (Z.compare_spec ea eb) as [Heq | Hlt | Hgt].
    + subst eb. pose proof (pos_compare_cont_le ma mb) as Hcmp.
      destruct (Pos.compare_cont Eq ma mb); split; intros H;
        try reflexivity; try discriminate H; lia.
    + split; [nia | reflexivity].
    + split; [discriminate | nia].
Qed.

Lemma leb_trans a b c :
  nonneg_finite a = true -> nonneg_finite b = true -> nonneg_finite c = true ->
  leb a b = true -> leb b c = true -> leb a c = true.
Proof.
  intros Ha Hb Hc Hab Hbc.
  apply (leb_rank a b) in Hab; try assumption.
  apply (leb_rank b c) in Hbc; try assumption.
  apply (leb_rank a c); try assumption. lia.
Qed.

Lemma leb_refl a : nonneg_finite a = true -> leb a a = true.
Proof. intros Ha. apply (leb_rank a a); try assumption. lia. Qed.

Lemma one_eq : one = S754_finite false 8388608 (-23).
Proof. reflexivity. Qed.

(** A factor in the unit interval is a zero or [md * 2 ^ ed] with
    [md <= 2 ^ (- ed)]. *)
Lemma in_unit_interval_cases d :
  in_unit_interval d = true ->
  (exists s, d = S754_zero s)
  \/ (exists md ed, d = S754_finite false md ed /\ ed <= 0 /\ Zpos md <= 2 ^ (- ed)).
Proof.
  unfold in_unit_interval. intros H.
  apply andb_true_iff in H as [H H1]. apply andb_true_iff in H as [Hv H0].
  destruct d as [s|s| |s md ed].
  - left. now exists s.
  - destruct s; discriminate.
  - discriminate.
  - right. destruct s; [discriminate H0|].
    exists md, ed. split; [reflexivity|].
    apply valid_finite_canonical, canonical_bounds in Hv.
    rewrite one_eq in H1. unfold leb, SFleb in H1. cbn [SFcompare] in H1.
    destruct (Z.compare_spec ed (-23)) as [Heq | Hlt | Hgt].
    + subst ed. split; [lia|].
      pose proof (pos_compare_cont_le md 8388608) as Hcmp.
      destruct (Pos.compare_cont Eq md 8388608); try discriminate H1;
        (change (2 ^ (- -23)) with 8388608; apply Hcmp; exact I).
    + split; [lia|].
      assert (2 ^ 24 <= 2 ^ (- ed)) by (apply Z.pow_le_mono_r; lia). lia.
    + discriminate H1.
Qed.

(** Multiplying a non-negative finite number by a factor of the unit
    interval gives a non-negative finite number that is not larger. *)
Lemma mul_unit_interval w d :
  nonneg_finite w = true ->
  in_unit_interval d = true ->
  nonneg_finite (mul w d) = true /\ leb (mul w d) w = true.
Proof.
  intros Hw Hd.
  assert (Hvalid : valid_binary prec emax (mul w d) = true).
  { apply mul_valid.
    - unfold nonneg_finite in Hw. now apply andb_true_iff in Hw as [? _].
    - unfold in_unit_interval in Hd. apply andb_true_iff in Hd as [Hd _].
      now apply andb_true_iff in Hd as [? _]. }
  unfold nonneg_finite in *. rewrite Hvalid. cbn [andb].
  apply andb_true_iff in Hw as [Hvw Hsw].
  destruct (in_unit_interval_cases d Hd) as [[s ->] | (md & ed & -> & Hed & Hmd)].
  - destruct w as [sw|sw| |[|] mw ew]; try discriminate Hsw; split; reflexivity.
  - destruct w as [sw|sw| |[|] mw ew]; try discriminate Hsw.
    + split; reflexivity.
    + apply valid_finite_canonical in Hvw. destruct Hvw as [Hcan Hbnd].
      assert (Hbelow : Float32Spec.below mw ew (Zpos (mw * md)) (ew + ed)).
      { repeat split; try lia.
        replace (ew - (ew + ed)) with (- ed) by lia.
        rewrite Pos2Z.inj_mul. nia. }
      pose proof (below_binary_round_aux mw ew Hcan _ _ Hbelow Hbnd) as Hres.
      unfold mul. cbn [SFmul xorb].
      destruct (binary_round_aux prec emax false (Zpos (mw * md)) (ew + ed) loc_Exact)
        as [s|s| |s m' e']; try contradiction.
      * subst s. split; reflexivity.
      * destruct Hres as [-> (He & _ & Hm)].
        split; [reflexivity|].
        unfold leb, SFleb. cbn [SFcompare].
        destruct (Z.compare_spec e' ew) as [Heq | Hlt | Hgt]; [|reflexivity|lia].
        subst e'. rewrite Z.sub_diag, Z.mul_1_r in Hm.
        pose proof (pos_compare_cont_le m' mw) as Hcmp.
        destruct (Pos.compare_cont Eq m' mw); try reflexivity.
        exfalso. apply Hcmp. exact Hm.
Qed.

(** ** Literals *)

(** The bit patterns of the constants of the source, as a compiler
    emits them. *)
Lemma literal_bits :
  lit 7 10 = of_bits 0x3F333333
  /\ lit 2 100 = of_bits 0x3CA3D70A
  /\ lit 8 100 = of_bits 0x3DA3D70A
  /\ lit 5 100 = of_bits 0x3D4CCCCD
  /\ lit 15 10 = of_bits 0x3FC00000
  /\ one = of_bits 0x3F800000
  /\ of_Z 90 = of_bits 0x42B40000
  /\ of_Z 180 = of_bits 0x43340000
  /\ Glm.deg_to_rad = of_bits 0x3C8EFA35
  /\ Libm.quarter_turn = of_bits 0x3FC90FDB.
Proof. repeat split; vm_compute; reflexivity. Qed.

End Float32Facts.

(* ===================================================================== *)
(** * Properties of the grammar engine                                     *)
(* ===================================================================== *)

Module LSystemFacts.

Import LSystem LSystemSpec.

(** The two defining equations of string concatenation. *)
Lemma append_nil_l (b : string) : "" +:+ b = b.
Proof. reflexivity. Qed.

Lemma append_cons (c : ascii) (a b : string) :
  String c a +:+ b = String c (a +:+ b).
Proof. reflexivity. Qed.

Lemma append_empty_r (s : string) : s +:+ "" = s.
Proof.
  induction s as [|c s IH]; [reflexivity|].
  now rewrite append_cons, IH.
Qed.

Lemma append_assoc (a b c : string) : (a +:+ b) +:+ c = a +:+ (b +:+ c).
Proof.
  induction a as [|ch a IH]; [reflexivity|].
  now rewrite !append_cons, IH.
Qed.

Lemma rewrite_symbol_acc rs acc symbol :
  rewrite_symbol rs acc symbol = acc +:+ image rs symbol.
Proof.
  unfold image, rewrite_symbol. destruct (rs !! symbol); reflexivity.
Qed.

(** The accumulator of the inner loop is only ever appended to. *)
Lemma rewrite_from_acc rs rest : forall acc,
  rewrite_from rs acc rest = acc +:+ rewrite_from rs "" rest.
Proof.
  induction rest as [|c rest IH]; intros acc; simpl.
  - now rewrite append_empty_r.
  - rewrite IH, (IH (rewrite_symbol rs "" c)), !rewrite_symbol_acc.
    now rewrite append_nil_l, append_assoc.
Qed.

(** A pass over a concatenation is the concatenation of the passes:
    no symbol sees the output of another. *)
Lemma rewrite_from_app rs u v :
  rewrite_from rs "" (u +:+ v) = rewrite_from rs "" u +:+ rewrite_from rs "" v.
Proof.
  induction u as [|c u IH]; [reflexivity|].
  rewrite append_cons. simpl.
  rewrite rewrite_from_acc, IH, (rewrite_from_acc rs u (rewrite_symbol rs "" c)).
  now rewrite append_assoc.
Qed.

Lemma rewrite_from_cons rs c v :
  rewrite_from rs "" (String c v) = image rs c +:+ rewrite_from rs "" v.
Proof. simpl. now rewrite rewrite_from_acc. Qed.

Lemma generation_loop_spec count : forall ls,
  generation_loop count ls =
  {| axiom := axiom ls; rules := rules ls;
     currentString := passes (rules ls) count (currentString ls);
     angle := angle ls;
     currentGeneration := currentGeneration ls + Z.of_nat count |}.
Proof.
  induction count as [|count IH]; intros ls.
  - destruct ls; simpl. f_equal. lia.
  - cbn [generation_loop]. rewrite IH. simpl. f_equal. lia.
Qed.

Lemma generate_spec n ls :
  generate n ls =
  {| axiom := axiom ls; rules := rules ls;
     currentString := passes (rules ls) (Z.to_nat n) (axiom ls);
     angle := angle ls;
     currentGeneration := Z.max 0 n |}.
Proof.
  unfold generate. rewrite generation_loop_spec. simpl. f_equal. lia.
Qed.

(** C1: on every object whose axiom is A and whose rules are A -> AB,
    B -> A, whatever it generated before, generate(n) followed by
    getString() returns A, AB, ABA, ABAAB, ABAABABA for
    n = 0, 1, 2, 3, 4, of lengths 1, 2, 3, 5, 8, and getGeneration()
    returns n: every call restarts from the axiom. *)
Theorem generate_fibonacci_words (ls : t) :
  axiom ls = "A"%string ->
  rules ls = <["B"%char := "A"%string]> (<["A"%char := "AB"%string]> ∅) ->
  map (fun n => getString (generate n ls)) [0; 1; 2; 3; 4]
    = ["A"; "AB"; "ABA"; "ABAAB"; "ABAABABA"]%string
  /\ map (fun n => String.length (getString (generate n ls))) [0; 1; 2; 3; 4]
    = [1; 2; 3; 5; 8]%nat
  /\ map (fun n => getGeneration (generate n ls)) [0; 1; 2; 3; 4]
    = [0; 1; 2; 3; 4].
Proof.
  intros Hax Hrs. cbn [map]. rewrite !generate_spec.
  unfold getString, getGeneration. cbn [currentString currentGeneration].
  rewrite Hax, Hrs. repeat split; vm_compute; reflexivity.
Qed.

Lemma generate_fibonacci_words_witness :
  let used := generate 2 fibonacci_grammar in
  (getString used = "ABA"%string /\ getGeneration used = 2)
  /\ map (fun n => getString (generate n used)) [0; 1; 2; 3; 4]
    = ["A"; "AB"; "ABA"; "ABAAB"; "ABAABABA"]%string
  /\ map (fun n => String.length (getString (generate n used))) [0; 1; 2; 3; 4]
    = [1; 2; 3; 5; 8]%nat
  /\ map (fun n => getGeneration (generate n used)) [0; 1; 2; 3; 4]
    = [0; 1; 2; 3; 4].
Proof.
  split; [split; vm_compute; reflexivity|].
  apply (generate_fibonacci_words (generate 2 fibonacci_grammar));
    vm_compute; reflexivity.
Defined.

(** C5, as the specification states it, fails: the right-hand side
    F+F--F+F of the Koch rule has eight symbols, so generation 1 has
    length 8, not 5. *)
Lemma koch_generation_1_length_not_5 :
  ~ (map (fun n => String.length (getString (generate n koch_grammar))) [0; 1; 2]
     = [1; 5; 25]%nat).
Proof. vm_compute. intros H. discriminate H. Qed.

(** C5, amended: with axiom F and rule F -> F+F--F+F the strings of
    generations 0, 1, 2 have lengths 1, 8, 36; generation 1 is exactly
    F+F--F+F and generation 2 is generation 1 with each F replaced by
    the right-hand side of the rule. *)
Theorem generate_koch_lengths :
  map (fun n => String.length (getString (generate n koch_grammar))) [0; 1; 2]
    = [1; 8; 36]%nat
  /\ getString (generate 0 koch_grammar) = "F"%string
  /\ getString (generate 1 koch_grammar) = "F+F--F+F"%string
  /\ getString (generate 2 koch_grammar)
     = ("F+F--F+F" +:+ "+" +:+ "F+F--F+F" +:+ "--" +:+ "F+F--F+F" +:+ "+"
        +:+ "F+F--F+F")%string.
Proof. repeat split; vm_compute; reflexivity. Qed.

(** C6: for every axiom and rule set, a symbol without a rule is
    copied unchanged and in place by one rewriting pass: wherever it
    occurs in the axiom, between [u] and [v], it occurs in the result
    of generate(1) between the rewritings of [u] and of [v]. *)
Theorem generate_identity_without_rule (ls : t) (s : ascii) (u v : string) :
  rules ls !! s = None ->
  axiom ls = (u +:+ String s v)%string ->
  getString (generate 1 ls)
  = (getString (generate 1 (setAxiom u ls))
     +:+ String s (getString (generate 1 (setAxiom v ls))))%string.
Proof.
  intros Hnone Hax.
  rewrite !generate_spec. unfold getString. cbn.
  change (Z.to_nat 1) with 1%nat. cbn [passes].
  rewrite Hax, rewrite_from_app, rewrite_from_cons.
  unfold image, rewrite_symbol. rewrite Hnone. reflexivity.
Qed.

Lemma generate_identity_without_rule_witness :
  getString (generate 1 (setAxiom "F+F" koch_grammar))
  = (getString (generate 1 (setAxiom "F" koch_grammar))
     +:+ String "+" (getString (generate 1 (setAxiom "F" koch_grammar))))%string.
Proof.
  apply (generate_identity_without_rule (setAxiom "F+F" koch_grammar) "+" "F" "F");
    vm_compute; reflexivity.
Defined.

(** C8: generate(n) is a function of the axiom, the rules and n only:
    two objects with the same axiom and rules produce the same string
    and generation counter whatever their earlier working strings
    were, and calling generate(n) after any earlier generate(m) gives
    the same object as calling generate(n) alone. *)
Theorem generate_deterministic (n m : Z) (ls1 ls2 : t) :
  axiom ls1 = axiom ls2 ->
  rules ls1 = rules ls2 ->
  getString (generate n ls1) = getString (generate n ls2)
  /\ getGeneration (generate n ls1) = getGeneration (generate n ls2)
  /\ generate n (generate m ls1) = generate n ls1
  /\ generate n (generate n ls1) = generate n ls1.
Proof.
  intros Hax Hrs. rewrite !generate_spec. unfold getString, getGeneration. cbn.
  rewrite Hax, Hrs. repeat split; reflexivity.
Qed.

Lemma generate_deterministic_witness :
  getString (generate 3 (generate 1 fibonacci_grammar))
  = getString (generate 3 (reset fibonacci_grammar))
  /\ getGeneration (generate 3 (generate 1 fibonacci_grammar))
     = getGeneration (generate 3 (reset fibonacci_grammar))
  /\ generate 3 (generate 2 (generate 1 fibonacci_grammar))
     = generate 3 (generate 1 fibonacci_grammar)
  /\ generate 3 (generate 3 (generate 1 fibonacci_grammar))
     = generate 3 (generate 1 fibonacci_grammar).
Proof.
  apply (generate_deterministic 3 2 (generate 1 fibonacci_grammar)
           (reset fibonacci_grammar)); vm_compute; reflexivity.
Defined.

End LSystemFacts.

(* ===================================================================== *)
(** * Properties of the turtle interpreter                                 *)
(* ===================================================================== *)

Module TurtleFacts.

Import Glm TurtleGraphics TurtleSpec.

(** Case analysis on the eight bits of a command character. *)
Ltac case_cmd c := destruct c as [[] [] [] [] [] [] [] []].

Section WithLibm.

Variables cosf sinf : float -> float.

Local Abbreviation processCommand := (processCommand cosf sinf).
Local Abbreviation run := (run cosf sinf).
Local Abbreviation interpret := (interpret cosf sinf).

(** ** Which members a command can touch *)

Lemma processCommand_branches tg cmd angle :
  m_branches (processCommand tg cmd angle)
  = m_branches tg ++ (if is_draw cmd then [branch_of tg] else []).
Proof.
  case_cmd cmd; cbn; rewrite ?app_nil_r; try reflexivity.
  destruct (m_stateStack tg); reflexivity.
Qed.

Lemma processCommand_stack tg cmd angle :
  m_stateStack (processCommand tg cmd angle)
  = if Ascii.eqb cmd "[" then m_currentState tg :: m_stateStack tg
    else if Ascii.eqb cmd "]" then tail (m_stateStack tg)
    else m_stateStack tg.
Proof.
  case_cmd cmd; cbn; try reflexivity.
  destruct (m_stateStack tg) eqn:E; cbn; rewrite ?E; reflexivity.
Qed.

Lemma run_app tg u v angle :
  run tg (u +:+ v) angle = run (run tg u angle) v angle.
Proof.
  revert tg. induction u as [|c u IH]; intros tg; [reflexivity|].
  change (String c u +:+ v) with (String c (u +:+ v)). cbn [TurtleGraphics.run].
  apply IH.
Qed.

Lemma run_branch_count s angle : forall tg,
  length (m_branches (run tg s angle))
  = (length (m_branches tg) + count_draw s)%nat.
Proof.
  induction s as [|c s IH]; intros tg; cbn [TurtleGraphics.run count_draw].
  - lia.
  - rewrite IH, processCommand_branches, length_app.
    destruct (is_draw c); cbn [length]; lia.
Qed.

Lemma uploadDecorationData_branches tg :
  m_branches (uploadDecorationData tg) = m_branches tg.
Proof. unfold uploadDecorationData. destruct (m_decorations tg); reflexivity. Qed.

Lemma uploadDecorationData_currentState tg :
  m_currentState (uploadDecorationData tg) = m_currentState tg.
Proof. unfold uploadDecorationData. destruct (m_decorations tg); reflexivity. Qed.

(** C2: for every string and every angle, the number of Branch
    records after interpret equals the number of occurrences of
    F, G, A, B in the string; a command emits a record exactly when
    it is one of these four. *)
Theorem branch_count_is_draw_count (tg : t) (s : string) (angle : float) :
  getBranchCount (interpret tg s angle) = count_draw s
  /\ (forall tg' cmd,
        m_branches (processCommand tg' cmd angle)
        = m_branches tg' ++ (if is_draw cmd then [branch_of tg'] else []))
  /\ (forall cmd, is_draw cmd = true <->
                  cmd = "F"%char \/ cmd = "G"%char \/ cmd = "A"%char \/ cmd = "B"%char).
Proof.
  split; [|split].
  - unfold getBranchCount, TurtleGraphics.interpret, uploadBranchData.
    rewrite uploadDecorationData_branches, run_branch_count. reflexivity.
  - intros tg' cmd. apply processCommand_branches.
  - intros cmd. split.
    + case_cmd cmd; cbn; intros H; try discriminate H; tauto.
    + intros [-> | [-> | [-> | ->]]]; reflexivity.
Qed.

(** ** Configuration, stack and width under a command *)

Lemma processCommand_config tg cmd angle :
  config (processCommand tg cmd angle) = config tg.
Proof.
  case_cmd cmd; cbn; try reflexivity.
  destruct (m_stateStack tg); reflexivity.
Qed.

Lemma run_config s angle : forall tg, config (run tg s angle) = config tg.
Proof.
  induction s as [|c s IH]; intros tg; cbn [TurtleGraphics.run]; [reflexivity|].
  now rewrite IH, processCommand_config.
Qed.

Lemma config_stepSize tg tg' : config tg' = config tg -> m_stepSize tg' = m_stepSize tg.
Proof. unfold config. intros H. now inversion H. Qed.

Lemma config_widthDecay tg tg' : config tg' = config tg -> m_widthDecay tg' = m_widthDecay tg.
Proof. unfold config. intros H. now inversion H. Qed.

Lemma processCommand_pop tg top rest angle :
  m_stateStack tg = top :: rest ->
  processCommand tg "]" angle = set_stateStack rest (set_currentState top tg).
Proof. intros H. cbn. rewrite H. reflexivity. Qed.

Lemma processCommand_draw tg cmd angle :
  is_draw cmd = true ->
  processCommand tg cmd angle
  = set_currentState
      (with_position
         (vadd (position (m_currentState tg))
               (vscale (heading (m_currentState tg)) (m_stepSize tg)))
         (m_currentState tg))
      (set_branches (m_branches tg ++ [branch_of tg]) tg).
Proof. case_cmd cmd; cbn; intros H; try discriminate H; reflexivity. Qed.

Lemma processCommand_draw_state tg cmd angle :
  is_draw cmd = true ->
  m_currentState (processCommand tg cmd angle)
  = with_position
      (vadd (position (m_currentState tg))
            (vscale (heading (m_currentState tg)) (m_stepSize tg)))
      (m_currentState tg).
Proof. intros H. now rewrite processCommand_draw. Qed.

Lemma processCommand_keeps_width tg cmd angle :
  no_push_decay_or_pop cmd = true ->
  width (m_currentState (processCommand tg cmd angle)) = width (m_currentState tg).
Proof. case_cmd cmd; cbn; intros H; try discriminate H; reflexivity. Qed.

Lemma run_keeps_width s angle : forall tg,
  all_chars no_push_decay_or_pop s = true ->
  width (m_currentState (run tg s angle)) = width (m_currentState tg).
Proof.
  induction s as [|c s IH]; intros tg H; cbn [TurtleGraphics.run]; [reflexivity|].
  cbn [all_chars] in H. apply andb_true_iff in H as [Hc Hs].
  now rewrite IH, processCommand_keeps_width.
Qed.

(** Commands of a string whose brackets never close more than the
    string opened leave the part of the stack that was there before
    untouched. *)
Lemma run_stack_discipline s angle : forall d d' tg pre base,
  bracket_depth d s = Some d' ->
  m_stateStack tg = pre ++ base ->
  length pre = d ->
  exists pre', m_stateStack (run tg s angle) = pre' ++ base /\ length pre' = d'.
Proof.
  induction s as [|c s IH]; intros d d' tg pre base Hd Hstk Hlen;
    cbn [TurtleGraphics.run bracket_depth] in *.
  - exists pre. split; [assumption|]. congruence.
  - pose proof (processCommand_stack tg c angle) as Hs.
    destruct (Ascii.eqb c "[").
    + apply (IH (S d) d' _ (m_currentState tg :: pre) base Hd).
      * rewrite Hs, Hstk. reflexivity.
      * cbn. now rewrite Hlen.
    + destruct (Ascii.eqb c "]").
      * destruct d as [|d0]; [discriminate Hd|].
        destruct pre as [|p pre0]; [discriminate Hlen|].
        apply (IH d0 d' _ pre0 base Hd).
        -- rewrite Hs, Hstk. reflexivity.
        -- now inversion Hlen.
      * apply (IH d d' _ pre base Hd); [|assumption].
        now rewrite Hs.
Qed.

Lemma run_balanced_stack s angle tg :
  balanced s = true -> m_stateStack (run tg s angle) = m_stateStack tg.
Proof.
  unfold balanced. intros H.
  destruct (bracket_depth 0 s) as [[|d]|] eqn:E; try discriminate H.
  destruct (run_stack_discipline s angle 0%nat 0%nat tg [] (m_stateStack tg) E eq_refl eq_refl)
    as [pre' [Hs Hl]].
  destruct pre'; [assumption | discriminate Hl].
Qed.

Lemma run_group tg u angle :
  balanced u = true ->
  let tg' := run tg ("[" +:+ u +:+ "]") angle in
  m_currentState tg' = m_currentState tg /\ m_stateStack tg' = m_stateStack tg.
Proof.
  intros Hu tg'. subst tg'.
  change ("[" +:+ u +:+ "]") with (String "[" (u +:+ "]")).
  cbn [TurtleGraphics.run]. rewrite run_app.
  set (tg1 := processCommand tg "[" angle).
  assert (Hstk : m_stateStack (run tg1 u angle) = m_currentState tg :: m_stateStack tg).
  { rewrite run_balanced_stack by assumption. reflexivity. }
  cbn [TurtleGraphics.run]. rewrite (processCommand_pop _ _ _ _ Hstk).
  split; reflexivity.
Qed.

(** C3: a bracketed group [ u ] with u balanced returns the current
    turtle state (position, heading, left, up, and also width,
    colour and depth) and the stack to exactly what they were before
    the '['.  Interpreting F[+F][-F]F ends where interpreting FF
    ends: two steps from the origin along the initial heading, with
    the initial frame. *)
Theorem bracket_group_restores_turtle (tg : t) (u : string) (angle : float) :
  balanced u = true ->
  (let tg' := run tg ("[" +:+ u +:+ "]") angle in
   position (m_currentState tg') = position (m_currentState tg)
   /\ heading (m_currentState tg') = heading (m_currentState tg)
   /\ left (m_currentState tg') = left (m_currentState tg)
   /\ up (m_currentState tg') = up (m_currentState tg)
   /\ m_currentState tg' = m_currentState tg
   /\ m_stateStack tg' = m_stateStack tg)
  /\ (let r := interpret tg "F[+F][-F]F" angle in
      let d := TurtleState_default in
      position (m_currentState r)
      = vadd (vadd (position d) (vscale (heading d) (m_stepSize tg)))
             (vscale (heading d) (m_stepSize tg))
      /\ heading (m_currentState r) = heading d
      /\ left (m_currentState r) = left d
      /\ up (m_currentState r) = up d
      /\ m_currentState r = m_currentState (interpret tg "FF" angle)).
Proof.
  intros Hu. split.
  - destruct (run_group tg u angle Hu) as [Hc Hs]. cbn zeta.
    rewrite Hc. repeat split; assumption.
  - cbn zeta. unfold TurtleGraphics.interpret, uploadBranchData.
    rewrite !uploadDecorationData_currentState.
    set (tg0 := interpret_reset tg).
    pose (g1 := ("[" +:+ "+F" +:+ "]")%string).
    pose (g2 := ("[" +:+ "-F" +:+ "]")%string).
    change "F[+F][-F]F"%string with ("F" +:+ g1 +:+ g2 +:+ "F")%string.
    rewrite (run_app tg0 "F" (g1 +:+ g2 +:+ "F")).
    set (tg1 := run tg0 "F" angle).
    rewrite (run_app tg1 g1 (g2 +:+ "F")).
    pose proof (run_group tg1 "+F" angle eq_refl) as [Hc2 _]. cbn zeta in Hc2.
    fold g1 in Hc2. set (tg2 := run tg1 g1 angle) in *.
    rewrite (run_app tg2 g2 "F").
    pose proof (run_group tg2 "-F" angle eq_refl) as [Hc3 _]. cbn zeta in Hc3.
    fold g2 in Hc3. set (tg3 := run tg2 g2 angle) in *.
    assert (Hstep3 : m_stepSize tg3 = m_stepSize tg).
    { apply config_stepSize. unfold tg3, tg2, tg1. now rewrite !run_config. }
    assert (Hstep1 : m_stepSize tg1 = m_stepSize tg).
    { apply config_stepSize. unfold tg1. now rewrite !run_config. }
    assert (Hcur3 : m_currentState tg3 = m_currentState tg1) by congruence.
    assert (Hfinal : m_currentState (run tg3 "F" angle)
                     = m_currentState (run tg1 "F" angle)).
    { cbn [TurtleGraphics.run]. rewrite !processCommand_draw_state by reflexivity.
      now rewrite Hcur3, Hstep3, Hstep1. }
    rewrite Hfinal.
    change (run tg0 "FF" angle) with (run tg1 "F" angle).
    repeat split; reflexivity.
Qed.

(** C7: a ']' processed while the stack is empty is ignored: the
    whole object (current state, stack, geometry, configuration) is
    unchanged, and the rest of the string is interpreted from that
    same object; a string that starts with a dangling ']' is
    interpreted as the string without it. *)
Theorem pop_on_empty_stack_is_noop (tg : t) (rest : string) (angle : float) :
  m_stateStack tg = [] ->
  processCommand tg "]" angle = tg
  /\ run tg (String "]" rest) angle = run tg rest angle
  /\ interpret tg (String "]" rest) angle = interpret tg rest angle.
Proof.
  intros H.
  assert (H1 : processCommand tg "]" angle = tg) by (cbn; now rewrite H).
  split; [assumption|]. split.
  - cbn [TurtleGraphics.run]. now rewrite H1.
  - unfold TurtleGraphics.interpret. cbn [TurtleGraphics.run].
    replace (processCommand (interpret_reset tg) "]" angle) with (interpret_reset tg);
      reflexivity.
Qed.

(** ** Draw-forward commands *)

(** C10, amended: a draw-forward command (F, G, A or B) advances the
    position by heading times stepSize and appends one Branch
    record; heading, left, up, width, colour, depth, the stack, the
    decorations and the configuration are unchanged.  The tapered
    end radius is not written back to the width, so a later
    draw-forward command with no '[', '!' or ']' in between emits a
    segment with the same start radius and the same end radius. *)
Theorem draw_forward_changes_position_only
    (tg : t) (cmd : ascii) (angle : float) :
  is_draw cmd = true ->
  let st := m_currentState tg in
  let tg' := processCommand tg cmd angle in
  let st' := m_currentState tg' in
  position st' = vadd (position st) (vscale (heading st) (m_stepSize tg))
  /\ heading st' = heading st /\ left st' = left st /\ up st' = up st
  /\ width st' = width st /\ color st' = color st /\ depth st' = depth st
  /\ m_branches tg' = m_branches tg ++ [branch_of tg]
  /\ radiusStart (branch_of tg) = width st
  /\ radiusEnd (branch_of tg) = (width st * m_widthDecay tg)%f32
  /\ m_stateStack tg' = m_stateStack tg
  /\ m_decorations tg' = m_decorations tg
  /\ config tg' = config tg
  /\ (forall (mid : string) (cmd2 : ascii),
        all_chars no_push_decay_or_pop mid = true ->
        is_draw cmd2 = true ->
        let tg2 := processCommand (run tg' mid angle) cmd2 angle in
        exists b2,
          last (m_branches tg2) = Some b2
          /\ radiusStart b2 = radiusStart (branch_of tg)
          /\ radiusEnd b2 = radiusEnd (branch_of tg)).
Proof.
  intros Hd. cbn zeta. rewrite (processCommand_draw tg cmd angle Hd).
  repeat (split; [reflexivity|]).
  intros mid cmd2 Hmid Hd2.
  set (tg' := set_currentState _ _).
  set (tgm := run tg' mid angle).
  exists (branch_of tgm). split.
  - rewrite processCommand_branches, Hd2. apply last_snoc.
  - assert (Hw : width (m_currentState tgm) = width (m_currentState tg)).
    { unfold tgm. rewrite run_keeps_width by assumption. reflexivity. }
    assert (Hk : m_widthDecay tgm = m_widthDecay tg).
    { apply config_widthDecay. unfold tgm. rewrite run_config. reflexivity. }
    unfold branch_of. cbn. now rewrite Hw, Hk.
Qed.

(** ** Pitch and roll *)

Lemma rotateAroundAxis_quarter_turn (v axis : vec3) :
  cosf Libm.quarter_turn = Libm.cos_quarter_turn ->
  sinf Libm.quarter_turn = Float32.one ->
  rotateAroundAxis cosf sinf v axis (Float32.of_Z 90)
  = rotateAroundAxis Libm.cosf_table Libm.sinf_table v axis (Float32.of_Z 90).
Proof.
  intros Hc Hs. unfold rotateAroundAxis.
  change (radians (Float32.of_Z 90)) with Libm.quarter_turn.
  rewrite Hc, Hs. reflexivity.
Qed.

(** C4 fails on the code.  Pitch (& ^) and roll (\ /) touch neither
    the position, the width, the colour, the depth, the stack nor
    the geometry, in either mode; but their cases do not test the
    3D flag, so in 2D mode they still rotate the frame.  With the
    flag off, from the initial state and with an angle of 90
    degrees, '&' turns the heading from (0, 1, 0) to about
    (0, 0, -1) and '\' turns left from (-1, 0, 0) to about
    (0, 0, 1), for every math library that returns the correctly
    rounded cosine and sine of a quarter turn. *)
Theorem pitch_and_roll_rotate_in_2D_mode :
  cosf Libm.quarter_turn = Libm.cos_quarter_turn ->
  sinf Libm.quarter_turn = Float32.one ->
  let tg := interpret_reset (set3DMode false new) in
  let deg90 := Float32.of_Z 90 in
  let pitched := processCommand tg "&" deg90 in
  let rolled := processCommand tg "\" deg90 in
  m_is3D tg = false
  /\ heading (m_currentState tg) = Vec3 Float32.zero Float32.one Float32.zero
  /\ left (m_currentState tg) = Vec3 (- Float32.one)%f32 Float32.zero Float32.zero
  /\ up (m_currentState tg) = Vec3 Float32.zero Float32.zero Float32.one
  /\ heading (m_currentState pitched)
     = Vec3 Float32.zero Libm.cos_quarter_turn (- Float32.one)%f32
  /\ up (m_currentState pitched)
     = Vec3 Float32.zero Float32.one Libm.cos_quarter_turn
  /\ left (m_currentState rolled)
     = Vec3 (- Libm.cos_quarter_turn)%f32 Float32.zero Float32.one
  /\ up (m_currentState rolled)
     = Vec3 Float32.one Float32.zero Libm.cos_quarter_turn
  /\ pitched <> tg
  /\ rolled <> tg.
Proof.
  intros Hc Hs. cbn zeta.
  assert (Hp : processCommand (interpret_reset (set3DMode false new)) "&" (Float32.of_Z 90)
               = TurtleGraphics.processCommand Libm.cosf_table Libm.sinf_table
                   (interpret_reset (set3DMode false new)) "&" (Float32.of_Z 90)).
  { cbn [TurtleGraphics.processCommand].
    now rewrite !rotateAroundAxis_quarter_turn. }
  assert (Hr : processCommand (interpret_reset (set3DMode false new)) "\" (Float32.of_Z 90)
               = TurtleGraphics.processCommand Libm.cosf_table Libm.sinf_table
                   (interpret_reset (set3DMode false new)) "\" (Float32.of_Z 90)).
  { cbn [TurtleGraphics.processCommand].
    now rewrite !rotateAroundAxis_quarter_turn. }
  rewrite Hp, Hr.
  repeat (split; [vm_compute; reflexivity|]).
  split; vm_compute; intros H; discriminate H.
Qed.

(** What pitch and roll do leave alone, in both modes. *)
Lemma pitch_and_roll_frame (tg : t) (cmd : ascii) (angle : float) :
  cmd = "&"%char \/ cmd = "^"%char \/ cmd = "\"%char \/ cmd = "/"%char ->
  let st := m_currentState tg in
  let tg' := processCommand tg cmd angle in
  let st' := m_currentState tg' in
  position st' = position st /\ width st' = width st
  /\ color st' = color st /\ depth st' = depth st
  /\ m_stateStack tg' = m_stateStack tg
  /\ m_branches tg' = m_branches tg
  /\ m_decorations tg' = m_decorations tg.
Proof.
  intros [-> | [-> | [-> | ->]]]; cbn; repeat split; reflexivity.
Qed.

(** ** Width along a chain of pushes *)

Lemma processCommand_width tg cmd angle :
  is_pop cmd = false ->
  width (m_currentState (processCommand tg cmd angle))
  = if Ascii.eqb cmd "[" || Ascii.eqb cmd "!"
    then (width (m_currentState tg) * m_widthDecay tg)%f32
    else width (m_currentState tg).
Proof. case_cmd cmd; cbn; intros H; try discriminate H; reflexivity. Qed.

End WithLibm.

(** ** Concrete evaluations *)

Lemma bracket_group_restores_turtle_witness :
  let cosf := Libm.cosf_table in
  let sinf := Libm.sinf_table in
  let tg := interpret_reset new in
  let angle := Float32.of_Z 90 in
  (let tg' := run cosf sinf tg ("[" +:+ "+F[-F]" +:+ "]") angle in
   position (m_currentState tg') = position (m_currentState tg)
   /\ heading (m_currentState tg') = heading (m_currentState tg)
   /\ left (m_currentState tg') = left (m_currentState tg)
   /\ up (m_currentState tg') = up (m_currentState tg)
   /\ m_currentState tg' = m_currentState tg
   /\ m_stateStack tg' = m_stateStack tg)
  /\ (let r := interpret cosf sinf tg "F[+F][-F]F" angle in
      let d := TurtleState_default in
      position (m_currentState r)
      = vadd (vadd (position d) (vscale (heading d) (m_stepSize tg)))
             (vscale (heading d) (m_stepSize tg))
      /\ heading (m_currentState r) = heading d
      /\ left (m_currentState r) = left d
      /\ up (m_currentState r) = up d
      /\ m_currentState r = m_currentState (interpret cosf sinf tg "FF" angle)).
Proof.
  apply (bracket_group_restores_turtle Libm.cosf_table Libm.sinf_table
           (interpret_reset new) "+F[-F]" (Float32.of_Z 90)).
  vm_compute. reflexivity.
Defined.

Lemma pop_on_empty_stack_is_noop_witness :
  let cosf := Libm.cosf_table in
  let sinf := Libm.sinf_table in
  let tg := interpret_reset new in
  processCommand cosf sinf tg "]" (Float32.of_Z 90) = tg
  /\ run cosf sinf tg (String "]" "F]F") (Float32.of_Z 90)
     = run cosf sinf tg "F]F" (Float32.of_Z 90)
  /\ interpret cosf sinf tg (String "]" "F]F") (Float32.of_Z 90)
     = interpret cosf sinf tg "F]F" (Float32.of_Z 90).
Proof.
  apply (pop_on_empty_stack_is_noop Libm.cosf_table Libm.sinf_table
           (interpret_reset new) "F]F" (Float32.of_Z 90)).
  vm_compute. reflexivity.
Defined.

(** C10 as stated fails: in [F]F the two draw-forward commands have
    neither '[' nor '!' between them, only the ']' that restores the
    saved width, and their segments start at radius 0.02 * 0.7 and
    0.02. *)
Lemma draws_around_pop_differ_in_radius :
  all_chars no_push_or_decay "]" = true
  /\ map (fun b => (radiusStart b, radiusEnd b))
       (m_branches (interpret Libm.cosf_table Libm.sinf_table new "[F]F" (Float32.of_Z 90)))
     = [ (S754_finite false 15032385 (-30), S754_finite false 10522669 (-30));
         (S754_finite false 10737418 (-29), S754_finite false 15032385 (-30)) ]
  /\ S754_finite false 15032385 (-30) <> S754_finite false 10737418 (-29).
Proof.
  split; [reflexivity|]. split; [vm_compute; reflexivity|].
  intros H. discriminate H.
Qed.

Lemma draw_forward_changes_position_only_witness :
  let cosf := Libm.cosf_table in
  let sinf := Libm.sinf_table in
  let tg := interpret_reset new in
  let angle := Float32.of_Z 90 in
  let st := m_currentState tg in
  let tg' := processCommand cosf sinf tg "F" angle in
  let st' := m_currentState tg' in
  position st' = vadd (position st) (vscale (heading st) (m_stepSize tg))
  /\ heading st' = heading st /\ left st' = left st /\ up st' = up st
  /\ width st' = width st /\ color st' = color st /\ depth st' = depth st
  /\ m_branches tg' = m_branches tg ++ [branch_of tg]
  /\ radiusStart (branch_of tg) = width st
  /\ radiusEnd (branch_of tg) = (width st * m_widthDecay tg)%f32
  /\ m_stateStack tg' = m_stateStack tg
  /\ m_decorations tg' = m_decorations tg
  /\ config tg' = config tg
  /\ (forall (mid : string) (cmd2 : ascii),
        all_chars no_push_decay_or_pop mid = true ->
        is_draw cmd2 = true ->
        let tg2 := processCommand cosf sinf (run cosf sinf tg' mid angle) cmd2 angle in
        exists b2,
          last (m_branches tg2) = Some b2
          /\ radiusStart b2 = radiusStart (branch_of tg)
          /\ radiusEnd b2 = radiusEnd (branch_of tg)).
Proof.
  apply (draw_forward_changes_position_only Libm.cosf_table Libm.sinf_table
           (interpret_reset new) "F" (Float32.of_Z 90)).
  reflexivity.
Defined.

Lemma pitch_and_roll_rotate_in_2D_mode_witness :
  let cosf := Libm.cosf_table in
  let sinf := Libm.sinf_table in
  let tg := interpret_reset (set3DMode false new) in
  let deg90 := Float32.of_Z 90 in
  let pitched := processCommand cosf sinf tg "&" deg90 in
  let rolled := processCommand cosf sinf tg "\" deg90 in
  m_is3D tg = false
  /\ heading (m_currentState tg) = Vec3 Float32.zero Float32.one Float32.zero
  /\ left (m_currentState tg) = Vec3 (- Float32.one)%f32 Float32.zero Float32.zero
  /\ up (m_currentState tg) = Vec3 Float32.zero Float32.zero Float32.one
  /\ heading (m_currentState pitched)
     = Vec3 Float32.zero Libm.cos_quarter_turn (- Float32.one)%f32
  /\ up (m_currentState pitched)
     = Vec3 Float32.zero Float32.one Libm.cos_quarter_turn
  /\ left (m_currentState rolled)
     = Vec3 (- Libm.cos_quarter_turn)%f32 Float32.zero Float32.one
  /\ up (m_currentState rolled)
     = Vec3 Float32.one Float32.zero Libm.cos_quarter_turn
  /\ pitched <> tg
  /\ rolled <> tg.
Proof.
  apply (pitch_and_roll_rotate_in_2D_mode Libm.cosf_table Libm.sinf_table);
    vm_compute; reflexivity.
Defined.

(** C9 as stated fails: with the default width 0.02 and decay 0.7,
    in F[F the nested branch starts at radius 0.02 * 0.7 = 0.014,
    which is the end radius of the enclosing branch and exceeds that
    end radius times widthDecay, 0.0098.  And the start radius does
    increase when the factor set through setWidthDecay exceeds 1: with
    1.5 the radii of F[F are 0.02 and 0.03. *)
Lemma nested_start_exceeds_decayed_end :
  (exists b1 b2,
     m_branches (interpret Libm.cosf_table Libm.sinf_table new "F[F" (Float32.of_Z 90))
     = [b1; b2]
     /\ radiusStart b2 = S754_finite false 15032385 (-30)
     /\ radiusStart b2 = radiusEnd b1
     /\ (radiusEnd b1 * m_widthDecay new)%f32 = S754_finite false 10522669 (-30)
     /\ Float32.leb (radiusStart b2) (radiusEnd b1 * m_widthDecay new)%f32 = false)
  /\ (exists b1 b2,
        m_branches (interpret Libm.cosf_table Libm.sinf_table
                      (setWidthDecay (Float32.lit 15 10) new) "F[F" (Float32.of_Z 90))
        = [b1; b2]
        /\ radiusStart b1 = Float32.lit 2 100
        /\ radiusStart b2 = Float32.lit 3 100
        /\ Float32.leb (radiusStart b2) (radiusStart b1) = false).
Proof.
  split; eexists; eexists; (split; [vm_compute; reflexivity|]); vm_compute; auto.
Qed.

End TurtleFacts.
(* ===================================================================== *)
(** * Further properties of the grammar engine                             *)
(* ===================================================================== *)

Module LSystemMore.

Import LSystem LSystemSpec GrammarSpec TurtleSpec.

Lemma length_append (a b : string) :
  String.length (a +:+ b) = (String.length a + String.length b)%nat.
Proof.
  induction a as [|c a IH]; [reflexivity|].
  rewrite LSystemFacts.append_cons. cbn [String.length]. now rewrite IH.
Qed.

Lemma all_replacements_lookup p rs c r :
  all_replacements p rs = true -> rs !! c = Some r -> p r = true.
Proof.
  unfold all_replacements. intros Hall Hc.
  rewrite forallb_forall in Hall.
  apply (Hall (c, r)). apply list_elem_of_In. now apply elem_of_map_to_list.
Qed.

(** ** The loop of [generate] *)

Lemma passes_succ rs count : forall s,
  passes rs (S count) s = rewrite_from rs "" (passes rs count s).
Proof.
  induction count as [|count IH]; intros s; [reflexivity|].
  change (passes rs (S (S count)) s) with (passes rs (S count) (rewrite_from rs "" s)).
  rewrite IH. reflexivity.
Qed.

Lemma passes_app rs count : forall u v,
  passes rs count (u +:+ v) = passes rs count u +:+ passes rs count v.
Proof.
  induction count as [|count IH]; intros u v; [reflexivity|].
  cbn [passes]. now rewrite LSystemFacts.rewrite_from_app, IH.
Qed.

(** A request for zero or a negative number of generations returns the
    object reset to its axiom: the loop body never runs. *)
Theorem generate_nonpositive (n : Z) (ls : t) :
  n <= 0 ->
  generate n ls = reset ls
  /\ getString (generate n ls) = getAxiom ls
  /\ getGeneration (generate n ls) = 0.
Proof.
  intros Hn. unfold generate.
  destruct n as [|p|p]; [| lia |]; repeat split; reflexivity.
Qed.

Lemma generate_nonpositive_witness :
  generate (-3) (generate 4 fibonacci_grammar) = reset (generate 4 fibonacci_grammar)
  /\ getString (generate (-3) (generate 4 fibonacci_grammar))
     = getAxiom (generate 4 fibonacci_grammar)
  /\ getGeneration (generate (-3) (generate 4 fibonacci_grammar)) = 0.
Proof. apply (generate_nonpositive (-3) (generate 4 fibonacci_grammar)). lia. Defined.

(** One more generation is one more run of the loop body on the result
    of the previous generations. *)
Theorem generate_succ (n : Z) (ls : t) :
  0 <= n ->
  generate (n + 1) ls = generation_step (generate n ls).
Proof.
  intros Hn. rewrite !LSystemFacts.generate_spec. unfold generation_step. cbn.
  replace (Z.to_nat (n + 1)) with (S (Z.to_nat n)) by lia.
  rewrite passes_succ. f_equal. lia.
Qed.

Lemma generate_succ_witness :
  generate (2 + 1) koch_grammar = generation_step (generate 2 koch_grammar).
Proof. apply (generate_succ 2 koch_grammar). lia. Defined.

(** Rewriting is context free: the expansion of a concatenated axiom is
    the concatenation of the expansions, at every generation. *)
Theorem generate_concatenation (n : Z) (u v : string) (ls : t) :
  getString (generate n (setAxiom (u +:+ v) ls))
  = getString (generate n (setAxiom u ls)) +:+ getString (generate n (setAxiom v ls)).
Proof.
  rewrite !LSystemFacts.generate_spec. unfold getString. cbn. apply passes_app.
Qed.

(** ** Growth *)

Lemma rewrite_from_length_nonerasing rs s :
  nonerasing rs = true ->
  (String.length s <= String.length (rewrite_from rs "" s))%nat.
Proof.
  intros Hne. induction s as [|c s IH]; [cbn; lia|].
  rewrite LSystemFacts.rewrite_from_cons, length_append. cbn [String.length].
  assert (1 <= String.length (image rs c))%nat.
  { unfold image, rewrite_symbol. destruct (rs !! c) as [r|] eqn:E;
      rewrite LSystemFacts.append_nil_l.
    - pose proof (all_replacements_lookup nonempty rs c r Hne E) as Hr.
      destruct r; [discriminate Hr | cbn; lia].
    - cbn. lia. }
  lia.
Qed.

Lemma passes_length_nonerasing rs count : forall s,
  nonerasing rs = true ->
  (String.length s <= String.length (passes rs count s))%nat.
Proof.
  induction count as [|count IH]; intros s Hne; [cbn; lia|].
  cbn [passes]. pose proof (rewrite_from_length_nonerasing rs s Hne).
  pose proof (IH (rewrite_from rs "" s) Hne). lia.
Qed.

(** When no rule has an empty replacement, the string never gets
    shorter from one generation count to a larger one. *)
Theorem generate_length_monotone (m n : Z) (ls : t) :
  nonerasing (rules ls) = true ->
  m <= n ->
  (String.length (getString (generate m ls))
   <= String.length (getString (generate n ls)))%nat.
Proof.
  intros Hne Hmn. rewrite !LSystemFacts.generate_spec. unfold getString. cbn.
  assert (Hk : exists k, Z.to_nat n = (k + Z.to_nat m)%nat)
    by (exists (Z.to_nat n - Z.to_nat m)%nat; lia).
  destruct Hk as [k ->]. generalize (Z.to_nat m) as j. intros j.
  induction k as [|k IH]; [cbn; lia|].
  change (S k + j)%nat with (S (k + j)). rewrite passes_succ.
  pose proof (rewrite_from_length_nonerasing (rules ls) (passes (rules ls) (k + j) (axiom ls)) Hne).
  lia.
Qed.

Lemma generate_length_monotone_witness :
  (String.length (getString (generate 1 koch_grammar))
   <= String.length (getString (generate 3 koch_grammar)))%nat.
Proof.
  apply (generate_length_monotone 1 3 koch_grammar); [vm_compute; reflexivity | lia].
Defined.

(** ** Rules *)

Lemma rewrite_from_no_rules s : rewrite_from ∅ "" s = s.
Proof.
  induction s as [|c s IH]; [reflexivity|].
  rewrite LSystemFacts.rewrite_from_cons, IH. unfold image, rewrite_symbol.
  rewrite lookup_empty. reflexivity.
Qed.

(** After clearRules every symbol is a constant: generate returns the
    axiom whatever the number of generations, while the counter still
    advances. *)
Theorem generate_after_clearRules (n : Z) (ls : t) :
  getString (generate n (clearRules ls)) = getAxiom ls
  /\ getGeneration (generate n (clearRules ls)) = Z.max 0 n.
Proof.
  rewrite LSystemFacts.generate_spec. unfold getString, getGeneration, getAxiom. cbn.
  split; [|reflexivity].
  induction (Z.to_nat n) as [|k IH]; [reflexivity|].
  rewrite passes_succ, IH. apply rewrite_from_no_rules.
Qed.

(** addRule followed by one generation on the one-symbol axiom returns
    the replacement just stored; a second addRule for the same symbol
    overwrites the first; the rewriting of every other symbol is
    unaffected. *)
Theorem addRule_then_generate (c c' : ascii) (r r' : string) (ls : t) :
  c' <> c ->
  getString (generate 1 (setAxiom (String c "") (addRule c r ls))) = r
  /\ addRule c r' (addRule c r ls) = addRule c r' ls
  /\ getString (generate 1 (setAxiom (String c' "") (addRule c r ls)))
     = getString (generate 1 (setAxiom (String c' "") ls)).
Proof.
  intros Hne. rewrite !LSystemFacts.generate_spec. unfold getString, addRule, setAxiom. cbn.
  change (Z.to_nat 1) with 1%nat. cbn [passes rewrite_from]. unfold rewrite_symbol.
  rewrite lookup_insert_eq, lookup_insert_ne by congruence.
  repeat split; try reflexivity.
  now rewrite insert_insert_eq.
Qed.

Lemma addRule_then_generate_witness :
  getString (generate 1 (setAxiom (String "F" "") (addRule "F" "FF" koch_grammar))) = "FF"%string
  /\ addRule "F" "F-F" (addRule "F" "FF" koch_grammar) = addRule "F" "F-F" koch_grammar
  /\ getString (generate 1 (setAxiom (String "+" "") (addRule "F" "FF" koch_grammar)))
     = getString (generate 1 (setAxiom (String "+" "") koch_grammar)).
Proof.
  apply (addRule_then_generate "F" "+" "FF" "F-F" koch_grammar). discriminate.
Defined.

(** ** Brackets *)

Lemma bracket_depth_app u : forall d v,
  bracket_depth d (u +:+ v)
  = match bracket_depth d u with
    | Some d1 => bracket_depth d1 v
    | None => None
    end.
Proof.
  induction u as [|c u IH]; intros d v; [reflexivity|].
  rewrite LSystemFacts.append_cons. cbn [bracket_depth].
  destruct (Ascii.eqb c "["); [apply IH|].
  destruct (Ascii.eqb c "]"); [|apply IH].
  destruct d; [reflexivity | apply IH].
Qed.

Lemma bracket_depth_shift s : forall d d' k,
  bracket_depth d s = Some d' -> bracket_depth (d + k) s = Some (d' + k)%nat.
Proof.
  induction s as [|c s IH]; intros d d' k H; cbn [bracket_depth] in *.
  - congruence.
  - destruct (Ascii.eqb c "["); [apply (IH (S d)); assumption|].
    destruct (Ascii.eqb c "]"); [|now apply IH].
    destruct d as [|d0]; [discriminate H|]. apply (IH d0). assumption.
Qed.

Lemma balanced_depth s d : balanced s = true -> bracket_depth d s = Some d.
Proof.
  unfold balanced. intros H.
  destruct (bracket_depth 0 s) as [[|k]|] eqn:E; try discriminate H.
  apply (bracket_depth_shift s 0 0 d) in E. exact E.
Qed.

Lemma rewrite_from_depth rs s :
  bracket_safe rs = true ->
  forall d, bracket_depth d (rewrite_from rs "" s) = bracket_depth d s.
Proof.
  unfold bracket_safe. intros Hsafe.
  apply andb_true_iff in Hsafe as [Hsafe Hrep].
  apply andb_true_iff in Hsafe as [Hopen Hclose].
  apply bool_decide_eq_true in Hopen, Hclose.
  induction s as [|c s IH]; intros d; [reflexivity|].
  rewrite LSystemFacts.rewrite_from_cons, bracket_depth_app.
  unfold image, rewrite_symbol. cbn [bracket_depth].
  destruct (rs !! c) as [r|] eqn:E.
  - pose proof (all_replacements_lookup balanced rs c r Hrep E) as Hbal.
    rewrite LSystemFacts.append_nil_l, (balanced_depth r d Hbal).
    destruct (Ascii.eqb_spec c "[") as [->|_]; [congruence|].
    destruct (Ascii.eqb_spec c "]") as [->|_]; [congruence|].
    apply IH.
  - rewrite LSystemFacts.append_nil_l. cbn [bracket_depth].
    destruct (Ascii.eqb c "["); [apply IH|].
    destruct (Ascii.eqb c "]"); [|apply IH].
    destruct d; [reflexivity | apply IH].
Qed.

Lemma generate_balanced n ls :
  bracket_safe (rules ls) = true ->
  balanced (getString (generate n ls)) = balanced (getAxiom ls).
Proof.
  intros Hsafe. rewrite LSystemFacts.generate_spec. unfold getString, getAxiom. cbn.
  generalize (axiom ls) as s. induction (Z.to_nat n) as [|k IH]; intros s; [reflexivity|].
  cbn [passes]. rewrite IH. unfold balanced. now rewrite rewrite_from_depth.
Qed.

(** When '[' and ']' have no rule and every replacement has balanced
    brackets, rewriting keeps the bracket structure: the string of
    every generation is balanced exactly when the axiom is. *)
Theorem generate_keeps_brackets_balanced (n : Z) (ls : t) :
  bracket_safe (rules ls) = true ->
  balanced (getString (generate n ls)) = balanced (getAxiom ls).
Proof. apply generate_balanced. Qed.

Lemma generate_keeps_brackets_balanced_witness :
  balanced (getString (generate 3 (addRule "F" "F[+F]F[-F][F]" koch_grammar)))
  = balanced (getAxiom (addRule "F" "F[+F]F[-F][F]" koch_grammar)).
Proof.
  apply (generate_keeps_brackets_balanced 3 (addRule "F" "F[+F]F[-F][F]" koch_grammar)).
  vm_compute. reflexivity.
Defined.

(** ** Alphabet *)

Lemma all_chars_app p u v :
  all_chars p (u +:+ v) = all_chars p u && all_chars p v.
Proof.
  induction u as [|c u IH]; [reflexivity|].
  rewrite LSystemFacts.append_cons. cbn [all_chars]. now rewrite IH, andb_assoc.
Qed.

Lemma rewrite_from_alphabet p rs s :
  all_replacements (all_chars p) rs = true ->
  all_chars p s = true ->
  all_chars p (rewrite_from rs "" s) = true.
Proof.
  intros Hrs. induction s as [|c s IH]; intros Hs; [reflexivity|].
  cbn [all_chars] in Hs. apply andb_true_iff in Hs as [Hc Hs].
  rewrite LSystemFacts.rewrite_from_cons, all_chars_app, (IH Hs), andb_true_r.
  unfold image, rewrite_symbol. rewrite LSystemFacts.append_nil_l.
  destruct (rs !! c) as [r|] eqn:E.
  - exact (all_replacements_lookup (all_chars p) rs c r Hrs E).
  - cbn. now rewrite Hc.
Qed.

Lemma generate_alphabet p n ls :
  all_chars p (getAxiom ls) = true ->
  all_replacements (all_chars p) (rules ls) = true ->
  all_chars p (getString (generate n ls)) = true.
Proof.
  intros Hax Hrs. rewrite LSystemFacts.generate_spec. unfold getString, getAxiom in *. cbn.
  revert Hax. generalize (axiom ls) as s.
  induction (Z.to_nat n) as [|k IH]; intros s Hs; [assumption|].
  cbn [passes]. apply IH. now apply rewrite_from_alphabet.
Qed.

(** generate never invents a symbol: a test passed by every symbol of
    the axiom and of the replacements is passed by every symbol of
    every generation. *)
Theorem generate_stays_in_alphabet (p : ascii -> bool) (n : Z) (ls : t) :
  all_chars p (getAxiom ls) = true ->
  all_replacements (all_chars p) (rules ls) = true ->
  all_chars p (getString (generate n ls)) = true.
Proof. apply generate_alphabet. Qed.

Lemma generate_stays_in_alphabet_witness :
  all_chars PresetSpec.no_pitch_or_roll (getString (generate 3 koch_grammar)) = true.
Proof.
  apply (generate_stays_in_alphabet PresetSpec.no_pitch_or_roll 3 koch_grammar);
    vm_compute; reflexivity.
Defined.

End LSystemMore.

(* ===================================================================== *)
(** * Properties of the rule parsers                                       *)
(* ===================================================================== *)

Module ParserFacts.

Import StdString ParserSpec TurtleSpec.

(** ** Searching *)

Lemma prefix_empty s : String.prefix "" s = true.
Proof. destruct s; reflexivity. Qed.

Lemma find_char c s : find (String c "") s = index_where (Ascii.eqb c) s.
Proof.
  induction s as [|a s IH]; [reflexivity|].
  cbn [find index_where String.prefix].
  destruct (ascii_dec c a) as [->|Hne].
  - rewrite Ascii.eqb_refl, prefix_empty. reflexivity.
  - apply Ascii.eqb_neq in Hne. rewrite Hne, IH. reflexivity.
Qed.

Lemma min_pos_index_where p q s :
  min_pos (index_where p s) (index_where q s)
  = index_where (fun c => p c || q c) s.
Proof.
  induction s as [|a s IH]; [reflexivity|]. cbn [index_where]. cbv beta.
  rewrite <- IH.
  destruct (p a), (q a); cbn [orb];
    destruct (index_where p s), (index_where q s); reflexivity.
Qed.

Lemma first_separator rest :
  min_pos (find (String "010" "") rest) (find (String "," "") rest)
  = index_where is_separator rest.
Proof. rewrite !find_char, min_pos_index_where. reflexivity. Qed.

Lemma take_length s : take (String.length s) s = s.
Proof. induction s as [|c s IH]; cbn; [reflexivity | now rewrite IH]. Qed.

Lemma drop_beyond s n : (String.length s <= n)%nat -> drop n s = EmptyString.
Proof.
  revert n. induction s as [|c s IH]; intros n H; destruct n; cbn in *;
    try reflexivity; try lia.
  apply IH. lia.
Qed.

Lemma drop_length s n :
  (String.length (drop n s) <= String.length s - n)%nat.
Proof.
  revert n. induction s as [|c s IH]; intros n; destruct n; cbn; try lia.
  apply IH.
Qed.

Lemma index_where_bound p s k :
  index_where p s = Some k -> (k < String.length s)%nat.
Proof.
  revert k. induction s as [|c s IH]; intros k H; cbn in *; [discriminate H|].
  destruct (p c); [inversion H; lia|].
  destruct (index_where p s) as [j|]; [|discriminate H].
  inversion H. specialize (IH j eq_refl). lia.
Qed.

(** ** Splitting *)

Lemma split_from_unfold p text : forall line,
  split_from p line text
  = match index_where p text with
    | Some k => (line +:+ take k text) :: split_from p "" (drop (S k) text)
    | None =>
        match line +:+ text with
        | EmptyString => []
        | _ => [line +:+ text]
        end
    end.
Proof.
  induction text as [|c text IH]; intros line; cbn [split_from index_where].
  - rewrite LSystemFacts.append_empty_r. reflexivity.
  - destruct (p c) eqn:Ep.
    + cbn [take drop]. rewrite LSystemFacts.append_empty_r. reflexivity.
    + rewrite IH. destruct (index_where p text) as [k|]; cbn [option_map take drop].
      * rewrite LSystemFacts.append_assoc. reflexivity.
      * rewrite LSystemFacts.append_assoc. reflexivity.
Qed.

(** The index loop of the Generar button visits the pieces of the text
    between separators, in order, whenever it has as many rounds as
    the text has characters. *)
Lemma rules_loop_fold fuel : forall rest lsystem,
  (String.length rest <= fuel)%nat ->
  UI.rules_loop fuel rest lsystem
  = fold_left (fun l line => UI.rule_line line l) (split_rules rest) lsystem.
Proof.
  induction fuel as [|fuel IH]; intros rest lsystem Hlen.
  - destruct rest; [reflexivity | cbn in Hlen; lia].
  - destruct rest as [|c rest]; [reflexivity|].
    cbn [UI.rules_loop]. rewrite first_separator.
    unfold split_rules. rewrite (split_from_unfold is_separator (String c rest) "").
    destruct (index_where is_separator (String c rest)) as [k|] eqn:Ek.
    + rewrite LSystemFacts.append_nil_l. cbn [fold_left].
      replace (k + 1)%nat with (S k) by lia.
      apply IH.
      pose proof (drop_length (String c rest) (S k)).
      pose proof (index_where_bound _ _ _ Ek). cbn [String.length] in *. lia.
    + rewrite LSystemFacts.append_nil_l. cbn [fold_left].
      rewrite take_length, drop_beyond by lia.
      destruct fuel; reflexivity.
Qed.

(** The rule loop of the Generar button terminates with the rules of
    the pieces of the text between separators (line feeds and commas),
    taken in order: as many rounds as the text has characters are
    enough, and more rounds change nothing. *)
Theorem parse_rules_visits_pieces (text : string) (lsystem : LSystem.t) (fuel : nat) :
  (String.length text <= fuel)%nat ->
  UI.rules_loop fuel text lsystem = UI.parse_rules text lsystem
  /\ UI.parse_rules text lsystem
     = fold_left (fun l line => UI.rule_line line l) (split_rules text) lsystem.
Proof.
  intros Hfuel. unfold UI.parse_rules.
  rewrite !rules_loop_fold by lia. split; reflexivity.
Qed.

Lemma parse_rules_visits_pieces_witness :
  UI.rules_loop 40 "X->F[+X],F->FF" koch_grammar = UI.parse_rules "X->F[+X],F->FF" koch_grammar
  /\ UI.parse_rules "X->F[+X],F->FF" koch_grammar
     = fold_left (fun l line => UI.rule_line line l) (split_rules "X->F[+X],F->FF") koch_grammar.
Proof.
  apply (parse_rules_visits_pieces "X->F[+X],F->FF" koch_grammar 40). vm_compute. lia.
Defined.

Lemma split_commas_to_line_feeds text : forall line,
  split_from is_separator line (commas_to_line_feeds text)
  = split_from is_separator line text.
Proof.
  induction text as [|c text IH]; intros line; [reflexivity|].
  cbn [commas_to_line_feeds split_from].
  destruct (Ascii.eqb_spec c ",") as [->|Hne].
  - cbn. now rewrite IH.
  - destruct (is_separator c); now rewrite IH.
Qed.

(** In the rule box a comma and a line feed separate rules alike: the
    text with every comma replaced by a line feed defines the same
    rules. *)
Theorem parse_rules_commas_as_line_feeds (text : string) (lsystem : LSystem.t) :
  UI.parse_rules (commas_to_line_feeds text) lsystem = UI.parse_rules text lsystem.
Proof.
  unfold UI.parse_rules. rewrite !rules_loop_fold by lia.
  unfold split_rules. now rewrite split_commas_to_line_feeds.
Qed.

(** ** The loader *)

Section WithEnvironment.

Variable read_file : string -> option string.
Variable stof : string -> option float.

Local Abbreviation load_line := (LSystemFile.load_line stof).
Local Abbreviation load_lines := (LSystemFile.load_lines stof).
Local Abbreviation loadRules := (LSystemFile.loadRules read_file stof).

Lemma load_lines_never_false lines : forall ls ls',
  load_lines lines ls <> LSystemFile.Returned false ls'.
Proof.
  induction lines as [|line lines IH]; intros ls ls'; cbn [LSystemFile.load_lines].
  - discriminate.
  - destruct (load_line line ls); [apply IH | discriminate].
Qed.

Lemma load_lines_generation lines : forall ls ls',
  load_lines lines ls = LSystemFile.Returned true ls' ->
  LSystem.currentGeneration ls' = 0.
Proof.
  induction lines as [|line lines IH]; intros ls ls' H; cbn [LSystemFile.load_lines] in H.
  - inversion H. reflexivity.
  - destruct (load_line line ls) as [l1|]; [eapply IH; eassumption | discriminate H].
Qed.

(** ** Lines that are rules *)

Lemma blank_line_has_no_arrow line :
  find_first_not_of_blank line = None -> find "->" line = None.
Proof.
  induction line as [|c line IH]; [reflexivity|].
  cbn [find_first_not_of_blank]. destruct (is_blank c) eqn:Eb; [|discriminate].
  intros H. destruct (find_first_not_of_blank line); [discriminate H|].
  cbn [find String.prefix].
  destruct (ascii_dec "-" c) as [<-|_]; [discriminate Eb|].
  now rewrite IH.
Qed.

Lemma load_line_plain line ls :
  is_plain_line line = true ->
  load_line line ls = Some (UI.rule_line line ls).
Proof.
  unfold is_plain_line, is_axiom_line, is_angle_line, trimmed,
    LSystemFile.load_line, UI.rule_line.
  intros H. apply andb_true_iff in H as [Hax Han].
  apply negb_true_iff in Hax, Han.
  destruct (find_first_not_of_blank line) as [start|] eqn:Es.
  - rewrite Hax, Han.
    destruct (find "->" (drop start line)) as [[|k]|]; try reflexivity.
    destruct (drop start line); reflexivity.
  - now rewrite (blank_line_has_no_arrow line Es).
Qed.

Lemma rule_line_frame line ls :
  LSystem.axiom (UI.rule_line line ls) = LSystem.axiom ls
  /\ LSystem.currentString (UI.rule_line line ls) = LSystem.currentString ls
  /\ LSystem.angle (UI.rule_line line ls) = LSystem.angle ls
  /\ LSystem.currentGeneration (UI.rule_line line ls) = LSystem.currentGeneration ls.
Proof.
  unfold UI.rule_line.
  destruct (find "->" _) as [[|k]|]; try (repeat split; reflexivity).
  destruct (match find_first_not_of_blank line with Some _ => _ | None => _ end);
    repeat split; reflexivity.
Qed.

Lemma fold_rule_line_frame lines : forall ls,
  let ls' := fold_left (fun l line => UI.rule_line line l) lines ls in
  LSystem.axiom ls' = LSystem.axiom ls
  /\ LSystem.currentString ls' = LSystem.currentString ls
  /\ LSystem.angle ls' = LSystem.angle ls
  /\ LSystem.currentGeneration ls' = LSystem.currentGeneration ls.
Proof.
  induction lines as [|line lines IH]; intros ls; cbn [fold_left]; [repeat split; reflexivity|].
  cbn zeta in *. destruct (IH (UI.rule_line line ls)) as (H1 & H2 & H3 & H4).
  destruct (rule_line_frame line ls) as (G1 & G2 & G3 & G4).
  repeat split; congruence.
Qed.

Lemma rule_line_rules line ls1 ls2 :
  LSystem.rules ls1 = LSystem.rules ls2 ->
  LSystem.rules (UI.rule_line line ls1) = LSystem.rules (UI.rule_line line ls2).
Proof.
  intros H. unfold UI.rule_line.
  destruct (find "->" _) as [[|k]|]; try assumption.
  destruct (match find_first_not_of_blank line with Some _ => _ | None => _ end);
    [assumption|]. cbn. now rewrite H.
Qed.

Lemma fold_rule_line_rules lines : forall ls1 ls2,
  LSystem.rules ls1 = LSystem.rules ls2 ->
  LSystem.rules (fold_left (fun l line => UI.rule_line line l) lines ls1)
  = LSystem.rules (fold_left (fun l line => UI.rule_line line l) lines ls2).
Proof.
  induction lines as [|line lines IH]; intros ls1 ls2 H; cbn [fold_left]; [assumption|].
  apply IH. now apply rule_line_rules.
Qed.

Lemma load_lines_plain lines : forall ls,
  forallb is_plain_line lines = true ->
  load_lines lines ls
  = LSystemFile.Returned true
      (generation_zeroed (fold_left (fun l line => UI.rule_line line l) lines ls)).
Proof.
  induction lines as [|line lines IH]; intros ls H; cbn [LSystemFile.load_lines fold_left].
  - reflexivity.
  - cbn [forallb] in H. apply andb_true_iff in H as [Hl Hr].
    rewrite load_line_plain by assumption. now apply IH.
Qed.

Lemma getlines_split text : forall line,
  all_chars no_comma text = true ->
  getlines_from line text = split_from is_separator line text.
Proof.
  induction text as [|c text IH]; intros line H; [reflexivity|].
  cbn [all_chars] in H. apply andb_true_iff in H as [Hc Ht].
  cbn [getlines_from split_from]. unfold is_separator.
  unfold no_comma in Hc. apply negb_true_iff in Hc. rewrite Hc, orb_false_r.
  destruct (Ascii.eqb c "010"); now rewrite IH.
Qed.

(** On a file without commas and without axiom or angle lines, the
    loader and the rule box of the control panel read the same rules;
    the loader then leaves axiom, angle and working string as they
    were and only zeroes the generation counter, so that getString()
    still returns the earlier expansion. *)
Theorem loadRules_agrees_with_rule_box
    (filename content : string) (ls : LSystem.t) :
  read_file filename = Some content ->
  all_chars no_comma content = true ->
  forallb is_plain_line (getlines content) = true ->
  let loaded := generation_zeroed (UI.parse_rules content (LSystem.clearRules ls)) in
  loadRules filename ls = LSystemFile.Returned true loaded
  /\ LSystem.getString loaded = LSystem.getString ls
  /\ LSystem.getAxiom loaded = LSystem.getAxiom ls
  /\ LSystem.getAngle loaded = LSystem.getAngle ls
  /\ LSystem.getGeneration loaded = 0.
Proof.
  intros Hfile Hcomma Hplain. cbn zeta.
  unfold LSystemFile.loadRules. rewrite Hfile.
  rewrite load_lines_plain by assumption.
  unfold UI.parse_rules. rewrite rules_loop_fold by lia.
  unfold getlines, split_rules. rewrite getlines_split by assumption.
  split; [reflexivity|].
  destruct (fold_rule_line_frame (split_from is_separator "" content) (LSystem.clearRules ls))
    as (H1 & H2 & H3 & H4). cbn zeta in *.
  unfold LSystem.getString, LSystem.getAxiom, LSystem.getAngle, LSystem.getGeneration,
    generation_zeroed. cbn.
  rewrite H1, H2, H3. repeat split; reflexivity.
Qed.

(** ** Axiom lines *)

Lemma load_line_keeps_reset line ls ls' :
  load_line line ls = Some ls' ->
  (is_axiom_line line = true \/ LSystem.currentString ls = LSystem.axiom ls) ->
  LSystem.currentString ls' = LSystem.axiom ls'.
Proof.
  unfold LSystemFile.load_line, is_axiom_line, trimmed. intros H Hor.
  destruct (find_first_not_of_blank line) as [start|] eqn:Es.
  - destruct (String.prefix "axiom:" (drop start line)) eqn:Eax.
    + inversion H. reflexivity.
    + destruct Hor as [Hax|Heq]; [discriminate Hax|].
      destruct (String.prefix "angle:" (drop start line)).
      * destruct (stof _); inversion H. exact Heq.
      * destruct (find "->" (drop start line)) as [[|k]|]; try (inversion H; subst; exact Heq).
        destruct (drop start line); inversion H; subst; exact Heq.
  - inversion H; subst. destruct Hor as [Hax|Heq]; [|exact Heq].
    revert Hax. pose proof (blank_line_has_no_arrow line Es) as _.
    clear H. intros Hax. exfalso.
    assert (Hb : forall s, find_first_not_of_blank s = None -> String.prefix "axiom:" s = false).
    { intros s. destruct s as [|c s]; [reflexivity|]. cbn [find_first_not_of_blank String.prefix].
      destruct (is_blank c) eqn:Eb; [|discriminate]. intros _.
      destruct (ascii_dec "a" c) as [<-|_]; [discriminate Eb | reflexivity]. }
    rewrite (Hb line Es) in Hax. discriminate Hax.
Qed.

Lemma load_lines_keeps_reset lines : forall ls ls',
  load_lines lines ls = LSystemFile.Returned true ls' ->
  (existsb is_axiom_line lines = true \/ LSystem.currentString ls = LSystem.axiom ls) ->
  LSystem.currentString ls' = LSystem.axiom ls'.
Proof.
  induction lines as [|line lines IH]; intros ls ls' H Hor; cbn [LSystemFile.load_lines] in H.
  - inversion H; subst. cbn. destruct Hor as [Hex|Heq]; [discriminate Hex | exact Heq].
  - destruct (load_line line ls) as [l1|] eqn:El; [|discriminate H].
    apply (IH l1 ls' H). cbn [existsb] in Hor.
    destruct (is_axiom_line line) eqn:Eax.
    + right. apply (load_line_keeps_reset line ls l1 El). now left.
    + destruct Hor as [Hex|Heq]; [left; exact Hex|].
      right. apply (load_line_keeps_reset line ls l1 El). now right.
Qed.

(** When a file that has an axiom line loads, the object ends up
    reset: the working string is the axiom and the counter is 0,
    whatever the object held before. *)
Theorem loadRules_with_axiom_line
    (filename content : string) (ls ls' : LSystem.t) :
  read_file filename = Some content ->
  existsb is_axiom_line (getlines content) = true ->
  loadRules filename ls = LSystemFile.Returned true ls' ->
  LSystem.getString ls' = LSystem.getAxiom ls'
  /\ LSystem.getGeneration ls' = 0.
Proof.
  unfold LSystemFile.loadRules. intros Hfile Hax H. rewrite Hfile in H. split.
  - eapply load_lines_keeps_reset; [eassumption | now left].
  - eapply load_lines_generation; eassumption.
Qed.

(** ** Angle lines that do not parse *)

Lemma blank_line_no_prefix c pat : forall line,
  is_blank c = false ->
  find_first_not_of_blank line = None ->
  String.prefix (String c pat) line = false.
Proof.
  intros line Hc Hb. destruct line as [|c' line]; [reflexivity|].
  cbn [find_first_not_of_blank] in Hb. cbn [String.prefix].
  destruct (is_blank c') eqn:Eb; [|discriminate Hb].
  destruct (ascii_dec c c') as [<-|_]; [congruence | reflexivity].
Qed.

Lemma load_line_rejected line ls :
  rejected stof line = true -> load_line line ls = None.
Proof.
  unfold rejected, is_axiom_line, is_angle_line, trimmed, LSystemFile.load_line.
  intros H. apply andb_true_iff in H as [H Hstof]. apply andb_true_iff in H as [Hax Han].
  apply negb_true_iff in Hax.
  destruct (find_first_not_of_blank line) as [start|] eqn:Es.
  - rewrite Hax, Han. destruct (stof _); [discriminate Hstof | reflexivity].
  - rewrite (blank_line_no_prefix "a" "ngle:" line eq_refl Es) in Han. discriminate Han.
Qed.

(** What a line that does not throw does to the object. *)
Lemma load_line_accepted line ls :
  rejected stof line = false ->
  exists ls',
    load_line line ls = Some ls'
    /\ LSystem.currentGeneration ls' = LSystem.currentGeneration ls
    /\ LSystem.rules ls'
       = LSystem.rules (if is_plain_line line then UI.rule_line line ls else ls)
    /\ (if is_axiom_line line
        then LSystem.currentString ls' = LSystem.axiom ls'
        else LSystem.currentString ls' = LSystem.currentString ls
             /\ LSystem.axiom ls' = LSystem.axiom ls)
    /\ (is_angle_line line = false -> LSystem.angle ls' = LSystem.angle ls).
Proof.
  intros Hrej. destruct (is_plain_line line) eqn:Ep.
  - exists (UI.rule_line line ls). rewrite load_line_plain by assumption.
    destruct (rule_line_frame line ls) as (G1 & G2 & G3 & G4).
    unfold is_plain_line in Ep. apply andb_true_iff in Ep as [Hax _].
    apply negb_true_iff in Hax. rewrite Hax.
    split; [reflexivity|]. split; [exact G4|]. split; [reflexivity|].
    split; [split; assumption|]. intros _. exact G3.
  - revert Hrej Ep.
    unfold rejected, is_plain_line, is_axiom_line, is_angle_line, trimmed,
      LSystemFile.load_line.
    destruct (find_first_not_of_blank line) as [start|] eqn:Es.
    + destruct (String.prefix "axiom:" (drop start line)) eqn:Eax.
      * intros _ _. eexists. split; [reflexivity|]. cbn. repeat split; reflexivity.
      * destruct (String.prefix "angle:" (drop start line)) eqn:Ean; [|discriminate].
        cbn [negb andb]. destruct (stof (drop 6 (drop start line))) as [a|]; [|discriminate].
        intros _ _. eexists. split; [reflexivity|]. cbn.
        repeat split; try reflexivity. discriminate.
    + rewrite (blank_line_no_prefix "a" "xiom:" line eq_refl Es).
      rewrite (blank_line_no_prefix "a" "ngle:" line eq_refl Es). discriminate.
Qed.

Lemma load_lines_accepted lines : forall ls,
  existsb (rejected stof) lines = false ->
  exists ls', load_lines lines ls = LSystemFile.Returned true ls'
              /\ LSystem.currentGeneration ls' = 0.
Proof.
  induction lines as [|line lines IH]; intros ls H; cbn [LSystemFile.load_lines].
  - eexists. split; reflexivity.
  - cbn [existsb] in H. apply orb_false_iff in H as [Hl Hr].
    destruct (load_line_accepted line ls Hl) as (l1 & -> & _). now apply IH.
Qed.

Lemma load_lines_throws lines : forall ls,
  existsb (rejected stof) lines = true ->
  exists ls', load_lines lines ls = LSystemFile.Threw ls'.
Proof.
  induction lines as [|line lines IH]; intros ls H; cbn [LSystemFile.load_lines existsb] in *.
  - discriminate H.
  - destruct (rejected stof line) eqn:Er.
    + rewrite (load_line_rejected line ls Er). now eexists.
    + destruct (load_line_accepted line ls Er) as (l1 & -> & _). now apply IH.
Qed.

(** The three outcomes of loadRules.  A file that cannot be opened
    makes it return false with the object untouched, rules included,
    and nothing else makes it return false.  A file that opens makes
    it return true, with the generation counter at 0, unless
    std::stof rejects the text of one of its angle lines: then the
    exception escapes. *)
Theorem loadRules_result (filename : string) (ls : LSystem.t) :
  match read_file filename with
  | None => loadRules filename ls = LSystemFile.Returned false ls
  | Some content =>
      if existsb (rejected stof) (getlines content)
      then exists ls', loadRules filename ls = LSystemFile.Threw ls'
      else exists ls', loadRules filename ls = LSystemFile.Returned true ls'
                       /\ LSystem.getGeneration ls' = 0
  end
  /\ (forall ls', loadRules filename ls = LSystemFile.Returned false ls'
                  <-> read_file filename = None /\ ls' = ls).
Proof.
  unfold LSystemFile.loadRules.
  destruct (read_file filename) as [content|]; split.
  - destruct (existsb (rejected stof) (getlines content)) eqn:E.
    + now apply load_lines_throws.
    + now apply load_lines_accepted.
  - intros ls'. split.
    + intros H. exfalso. eapply load_lines_never_false; eassumption.
    + intros [H _]. discriminate H.
  - reflexivity.
  - intros ls'. split.
    + intros H. inversion H. split; reflexivity.
    + intros [_ ->]. reflexivity.
Qed.

Lemma load_lines_rejected pre : forall post bad ls,
  existsb (rejected stof) pre = false ->
  rejected stof bad = true ->
  exists left_behind,
    load_lines (pre ++ bad :: post) ls = LSystemFile.Threw left_behind
    /\ LSystem.rules left_behind
       = LSystem.rules (fold_left (fun l line => UI.rule_line line l)
                          (List.filter is_plain_line pre) ls)
    /\ LSystem.currentGeneration left_behind = LSystem.currentGeneration ls
    /\ (if existsb is_axiom_line pre
        then LSystem.currentString left_behind = LSystem.axiom left_behind
        else LSystem.currentString left_behind = LSystem.currentString ls
             /\ LSystem.axiom left_behind = LSystem.axiom ls)
    /\ (existsb is_angle_line pre = false ->
        LSystem.angle left_behind = LSystem.angle ls).
Proof.
  induction pre as [|line pre IH]; intros post bad ls Hpre Hbad;
    cbn [app LSystemFile.load_lines existsb List.filter fold_left].
  - rewrite (load_line_rejected bad ls Hbad). exists ls. repeat split; reflexivity.
  - cbn [existsb] in Hpre. apply orb_false_iff in Hpre as [Hl Hr].
    destruct (load_line_accepted line ls Hl) as (l1 & -> & Hg & Hrs & Hstr & Han).
    destruct (IH post bad l1 Hr Hbad) as (lb & Hthrow & Hrs' & Hg' & Hstr' & Han').
    exists lb. split; [exact Hthrow|]. split; [|split; [congruence|split]].
    + rewrite Hrs'. destruct (is_plain_line line); cbn [fold_left];
        now apply fold_rule_line_rules.
    + destruct (existsb is_axiom_line pre); [now rewrite orb_true_r|].
      rewrite orb_false_r. destruct Hstr' as [Hs Ha].
      destruct (is_axiom_line line); [congruence|].
      destruct Hstr as [Hs1 Ha1]. split; congruence.
    + intros H. apply orb_false_iff in H as [H1 H2].
      rewrite (Han' H2). now apply Han.
Qed.

(** When std::stof rejects the text of an angle line, the first such
    line of the file, the exception leaves loadRules half way.  The
    earlier rules of the object are gone and the rules of the lines
    before that line are in; the lines after it are not read; the
    generation counter is not reset.  The working string and the
    axiom are as they were, unless one of the lines before was an
    axiom line: then the working string is the new axiom.  The angle
    is as it was unless one of the lines before was an angle line. *)
Theorem loadRules_bad_angle
    (filename content : string) (pre post : list string) (bad : string) (ls : LSystem.t) :
  read_file filename = Some content ->
  getlines content = pre ++ bad :: post ->
  existsb (rejected stof) pre = false ->
  rejected stof bad = true ->
  exists left_behind,
    loadRules filename ls = LSystemFile.Threw left_behind
    /\ LSystem.rules left_behind
       = LSystem.rules (fold_left (fun l line => UI.rule_line line l)
                          (List.filter is_plain_line pre) (LSystem.clearRules ls))
    /\ LSystem.getGeneration left_behind = LSystem.getGeneration ls
    /\ (if existsb is_axiom_line pre
        then LSystem.getString left_behind = LSystem.getAxiom left_behind
        else LSystem.getString left_behind = LSystem.getString ls
             /\ LSystem.getAxiom left_behind = LSystem.getAxiom ls)
    /\ (existsb is_angle_line pre = false ->
        LSystem.getAngle left_behind = LSystem.getAngle ls).
Proof.
  intros Hfile Hlines Hpre Hbad.
  unfold LSystemFile.loadRules. rewrite Hfile, Hlines.
  apply (load_lines_rejected pre post bad (LSystem.clearRules ls) Hpre Hbad).
Qed.

End WithEnvironment.

(** ** Evaluations *)

Lemma loadRules_result_witness :
  let ls := LSystem.generate 4 fibonacci_grammar in
  let loadRules := LSystemFile.loadRules SampleFiles.read_file SampleFiles.stof in
  loadRules "missing.txt" ls = LSystemFile.Returned false ls
  /\ (exists ls', loadRules "bad.txt" ls = LSystemFile.Threw ls')
  /\ (exists ls', loadRules "koch.txt" ls = LSystemFile.Returned true ls'
                  /\ LSystem.getGeneration ls' = 0).
Proof.
  pose (ls := LSystem.generate 4 fibonacci_grammar).
  split; [|split].
  - exact (proj1 (loadRules_result SampleFiles.read_file SampleFiles.stof "missing.txt" ls)).
  - exact (proj1 (loadRules_result SampleFiles.read_file SampleFiles.stof "bad.txt" ls)).
  - exact (proj1 (loadRules_result SampleFiles.read_file SampleFiles.stof "koch.txt" ls)).
Defined.

Lemma loadRules_agrees_with_rule_box_witness :
  let ls := LSystem.generate 4 fibonacci_grammar in
  let loaded :=
    generation_zeroed (UI.parse_rules SampleFiles.rules_only_file (LSystem.clearRules ls)) in
  LSystemFile.loadRules SampleFiles.read_file SampleFiles.stof "rules.txt" ls
  = LSystemFile.Returned true loaded
  /\ LSystem.getString loaded = LSystem.getString ls
  /\ LSystem.getAxiom loaded = LSystem.getAxiom ls
  /\ LSystem.getAngle loaded = LSystem.getAngle ls
  /\ LSystem.getGeneration loaded = 0.
Proof.
  apply (loadRules_agrees_with_rule_box SampleFiles.read_file SampleFiles.stof
           "rules.txt" SampleFiles.rules_only_file (LSystem.generate 4 fibonacci_grammar));
    vm_compute; reflexivity.
Defined.

Lemma loadRules_with_axiom_line_witness :
  let ls' :=
    LSystemFile.object_of
      (LSystemFile.loadRules SampleFiles.read_file SampleFiles.stof "koch.txt"
         (LSystem.generate 4 fibonacci_grammar)) in
  LSystem.getString ls' = LSystem.getAxiom ls'
  /\ LSystem.getGeneration ls' = 0.
Proof.
  apply (loadRules_with_axiom_line SampleFiles.read_file SampleFiles.stof
           "koch.txt" SampleFiles.koch_file (LSystem.generate 4 fibonacci_grammar));
    vm_compute; reflexivity.
Defined.

Lemma loadRules_bad_angle_witness :
  let ls := LSystem.generate 4 fibonacci_grammar in
  exists left_behind,
    LSystemFile.loadRules (fun _ => Some SampleFiles.bad_angle_after_axiom_file)
      SampleFiles.stof "tree.txt" ls
    = LSystemFile.Threw left_behind
    /\ LSystem.rules left_behind
       = LSystem.rules (UI.rule_line "F->FF" (LSystem.clearRules ls))
    /\ LSystem.getGeneration left_behind = LSystem.getGeneration ls
    /\ LSystem.getString left_behind = LSystem.getAxiom left_behind
    /\ LSystem.getAngle left_behind = LSystem.getAngle ls.
Proof.
  destruct (loadRules_bad_angle (fun _ => Some SampleFiles.bad_angle_after_axiom_file)
              SampleFiles.stof "tree.txt" SampleFiles.bad_angle_after_axiom_file
              ["axiom: F"; "F->FF"]%string ["F->F+F"%string] "angle: sixty"
              (LSystem.generate 4 fibonacci_grammar))
    as (left_behind & H1 & H2 & H3 & H4 & H5);
    try (vm_compute; reflexivity).
  exists left_behind.
  split; [exact H1|]. split; [exact H2|]. split; [exact H3|]. split; [exact H4|].
  apply H5. reflexivity.
Defined.

End ParserFacts.

(* ===================================================================== *)
(** * Further properties of the turtle interpreter                         *)
(* ===================================================================== *)

Module TurtleMore.

Import Glm TurtleGraphics TurtleSpec TurtleSpecMore.

Ltac case_symbol c := destruct c as [[] [] [] [] [] [] [] []].

Section WithLibm.

Variables cosf sinf : float -> float.

Local Abbreviation processCommand := (processCommand cosf sinf).
Local Abbreviation run := (run cosf sinf).
Local Abbreviation interpret := (interpret cosf sinf).

(** ** Decorations *)

Lemma processCommand_decoration_types tg cmd angle :
  map type (m_decorations (processCommand tg cmd angle))
  = map type (m_decorations tg) ++ decoration_types (String cmd "").
Proof.
  case_symbol cmd; cbn; rewrite ?map_app, ?app_nil_r; try reflexivity.
  destruct (m_stateStack tg); reflexivity.
Qed.

Lemma decoration_types_cons c s :
  decoration_types (String c s) = decoration_types (String c "") ++ decoration_types s.
Proof. cbn. destruct (is_leaf c); [reflexivity|]. destruct (is_flower c); reflexivity. Qed.

Lemma run_decoration_types s angle : forall tg,
  map type (m_decorations (run tg s angle))
  = map type (m_decorations tg) ++ decoration_types s.
Proof.
  induction s as [|c s IH]; intros tg; cbn [TurtleGraphics.run].
  - cbn. now rewrite app_nil_r.
  - rewrite IH, processCommand_decoration_types, (decoration_types_cons c s).
    now rewrite app_assoc.
Qed.

Lemma processCommand_leaves_flowers tg cmd angle :
  m_leaves (processCommand tg cmd angle) = m_leaves tg
  /\ m_flowers (processCommand tg cmd angle) = m_flowers tg.
Proof.
  case_symbol cmd; cbn; try (split; reflexivity).
  destruct (m_stateStack tg); split; reflexivity.
Qed.

Lemma run_leaves_flowers s angle : forall tg,
  m_leaves (run tg s angle) = m_leaves tg /\ m_flowers (run tg s angle) = m_flowers tg.
Proof.
  induction s as [|c s IH]; intros tg; cbn [TurtleGraphics.run]; [split; reflexivity|].
  destruct (IH (processCommand tg c angle)) as [H1 H2].
  destruct (processCommand_leaves_flowers tg c angle) as [G1 G2].
  split; congruence.
Qed.

Lemma decoration_types_counts s :
  length (filter (fun z => z = 0) (decoration_types s)) = count_chars is_leaf s
  /\ length (filter (fun z => z <> 0) (decoration_types s)) = count_chars is_flower s.
Proof.
  induction s as [|c s [IH1 IH2]]; [split; reflexivity|].
  cbn [decoration_types count_chars].
  destruct (is_leaf c) eqn:El.
  - assert (is_flower c = false) as ->.
    { unfold is_leaf, is_flower in *. case_symbol c; cbn in *; congruence. }
    rewrite filter_cons_True, filter_cons_False by lia. cbn [length]. split; lia.
  - destruct (is_flower c).
    + rewrite filter_cons_False, filter_cons_True by lia. cbn [length]. split; lia.
    + split; lia.
Qed.

Lemma length_filter_leaves (l : list DecorationData) :
  length (filter (fun d => type d = 0) l)
  = length (filter (fun z => z = 0) (map type l)).
Proof.
  induction l as [|a l IH]; [reflexivity|]. cbn [map].
  destruct (decide (type a = 0)).
  - rewrite !filter_cons_True by assumption. cbn [length]. now rewrite IH.
  - rewrite !filter_cons_False by assumption. exact IH.
Qed.

Lemma length_filter_flowers (l : list DecorationData) :
  length (filter (fun d => type d <> 0) l)
  = length (filter (fun z => z <> 0) (map type l)).
Proof.
  induction l as [|a l IH]; [reflexivity|]. cbn [map].
  destruct (decide (type a = 0)).
  - rewrite !filter_cons_False by tauto. exact IH.
  - rewrite !filter_cons_True by assumption. cbn [length]. now rewrite IH.
Qed.

(** interpret emits one decoration per leaf symbol (L, l: type 0) and
    per flower symbol (K, k: type 1), in command order.  When there is
    at least one, the leaves and the flowers are the decorations of
    each type, in creation order, as many as the string has symbols
    of the kind.  When there is none, the upload returns before it
    clears the two lists, which keep what an earlier call put there. *)
Theorem decorations_by_type (tg : t) (s : string) (angle : float) :
  let r := interpret tg s angle in
  map type (m_decorations r) = decoration_types s
  /\ getDecorationCount r = (count_chars is_leaf s + count_chars is_flower s)%nat
  /\ match decoration_types s with
     | [] => m_leaves r = m_leaves tg /\ m_flowers r = m_flowers tg
     | _ =>
         m_leaves r = filter (fun d => type d = 0) (m_decorations r)
         /\ m_flowers r = filter (fun d => type d <> 0) (m_decorations r)
         /\ length (m_leaves r) = count_chars is_leaf s
         /\ length (m_flowers r) = count_chars is_flower s
     end.
Proof.
  cbn zeta. unfold TurtleGraphics.interpret, uploadBranchData.
  set (tg1 := run (interpret_reset tg) s angle).
  assert (Htypes : map type (m_decorations tg1) = decoration_types s).
  { unfold tg1. rewrite run_decoration_types. reflexivity. }
  destruct (decoration_types_counts s) as [Hl Hf].
  assert (Hlen : length (m_decorations tg1)
                 = (count_chars is_leaf s + count_chars is_flower s)%nat).
  { rewrite <- (length_map type), Htypes, <- Hl, <- Hf.
    generalize (decoration_types s) as l. intros l.
    induction l as [|z l IH]; [reflexivity|].
    destruct (decide (z = 0)).
    - rewrite filter_cons_True, filter_cons_False by (try assumption; lia).
      cbn [length]. lia.
    - rewrite filter_cons_False, filter_cons_True by assumption. cbn [length]. lia. }
  destruct (run_leaves_flowers s angle (interpret_reset tg)) as [Hkl Hkf]. fold tg1 in Hkl, Hkf.
  unfold uploadDecorationData, getDecorationCount.
  destruct (m_decorations tg1) as [|d ds] eqn:Ed.
  - rewrite Ed. cbn [map] in Htypes. rewrite <- Htypes.
    repeat split; try assumption.
  - cbn [m_decorations set_leaves_flowers m_leaves m_flowers].
    rewrite Ed. split; [exact Htypes|]. split; [exact Hlen|].
    assert (Hne : decoration_types s <> []) by (rewrite <- Htypes; discriminate).
    destruct (decoration_types s) as [|z zs] eqn:Ez; [congruence|].
    split; [reflexivity|]. split; [reflexivity|].
    rewrite <- Hl, <- Hf, <- Htypes.
    split; [apply length_filter_leaves | apply length_filter_flowers].
Qed.

(** ** What a run depends on *)

Lemma processCommand_core tg1 tg2 cmd angle :
  core tg1 = core tg2 ->
  core (processCommand tg1 cmd angle) = core (processCommand tg2 cmd angle).
Proof.
  destruct tg1, tg2. unfold core, config. cbn. intros H. inversion H; subst; clear H.
  case_symbol cmd; try reflexivity.
  cbn. destruct m_stateStack1; reflexivity.
Qed.

Lemma run_core s angle : forall tg1 tg2,
  core tg1 = core tg2 -> core (run tg1 s angle) = core (run tg2 s angle).
Proof.
  induction s as [|c s IH]; intros tg1 tg2 H; cbn [TurtleGraphics.run]; [assumption|].
  apply IH. now apply processCommand_core.
Qed.

Lemma uploadDecorationData_core tg : core (uploadDecorationData tg) = core tg.
Proof. unfold uploadDecorationData. destruct (m_decorations tg); reflexivity. Qed.

Lemma uploadDecorationData_fields tg :
  m_currentState (uploadDecorationData tg) = m_currentState tg
  /\ m_stateStack (uploadDecorationData tg) = m_stateStack tg
  /\ m_decorations (uploadDecorationData tg) = m_decorations tg
  /\ m_branches (uploadDecorationData tg) = m_branches tg.
Proof.
  unfold uploadDecorationData. destruct (m_decorations tg) eqn:E; cbn; rewrite ?E;
    repeat split; reflexivity.
Qed.

(** The geometry, the turtle state and the stack that interpret leaves
    depend on the configuration, the string and the angle only: two
    objects configured alike end up with the same branches,
    decorations, turtle state and stack, whatever each of them
    interpreted before. *)
Theorem interpret_forgets_earlier_runs (tg1 tg2 : t) (s : string) (angle : float) :
  config tg1 = config tg2 ->
  m_branches (interpret tg1 s angle) = m_branches (interpret tg2 s angle)
  /\ m_decorations (interpret tg1 s angle) = m_decorations (interpret tg2 s angle)
  /\ m_currentState (interpret tg1 s angle) = m_currentState (interpret tg2 s angle)
  /\ m_stateStack (interpret tg1 s angle) = m_stateStack (interpret tg2 s angle).
Proof.
  intros Hc.
  assert (H : core (interpret tg1 s angle) = core (interpret tg2 s angle)).
  { unfold TurtleGraphics.interpret, uploadBranchData.
    rewrite !uploadDecorationData_core. apply run_core.
    unfold core, interpret_reset, config in *. cbn. inversion Hc. reflexivity. }
  unfold core in H. inversion H. repeat split; reflexivity.
Qed.

(** ** Stack size and depth *)

Lemma processCommand_depth tg cmd angle :
  depth (m_currentState (processCommand tg cmd angle))
  = if Ascii.eqb cmd "[" then depth (m_currentState tg) + 1
    else if Ascii.eqb cmd "]" then
      match m_stateStack tg with
      | top :: _ => depth top
      | [] => depth (m_currentState tg)
      end
    else depth (m_currentState tg).
Proof.
  case_symbol cmd; cbn; try reflexivity.
  destruct (m_stateStack tg); reflexivity.
Qed.

Lemma depth_invariant_step tg cmd angle :
  depth (m_currentState tg) = Z.of_nat (length (m_stateStack tg)) ->
  stack_depths (m_stateStack tg) ->
  let tg' := processCommand tg cmd angle in
  depth (m_currentState tg') = Z.of_nat (length (m_stateStack tg'))
  /\ stack_depths (m_stateStack tg')
  /\ length (m_stateStack tg') = open_brackets (length (m_stateStack tg)) (String cmd "").
Proof.
  intros Hd Hs. cbn zeta.
  rewrite processCommand_depth, TurtleFacts.processCommand_stack. cbn [open_brackets].
  destruct (Ascii.eqb cmd "[").
  - cbn [length stack_depths]. repeat split; try assumption; lia.
  - destruct (Ascii.eqb cmd "]"); [|repeat split; assumption].
    destruct (m_stateStack tg) as [|top rest]; cbn in *.
    + repeat split; assumption.
    + destruct Hs as [Ht Hr]. repeat split; assumption.
Qed.

Lemma depth_invariant_run s angle : forall tg,
  depth (m_currentState tg) = Z.of_nat (length (m_stateStack tg)) ->
  stack_depths (m_stateStack tg) ->
  let tg' := run tg s angle in
  depth (m_currentState tg') = Z.of_nat (length (m_stateStack tg'))
  /\ length (m_stateStack tg') = open_brackets (length (m_stateStack tg)) s.
Proof.
  induction s as [|c s IH]; intros tg Hd Hs; cbn [TurtleGraphics.run open_brackets].
  - split; [assumption | reflexivity].
  - destruct (depth_invariant_step tg c angle Hd Hs) as (Hd' & Hs' & Hl). cbn zeta in *.
    destruct (IH _ Hd' Hs') as [H1 H2]. cbn zeta in *. split; [assumption|].
    rewrite H2, Hl. cbn [open_brackets].
    destruct (Ascii.eqb c "["); [reflexivity|]. destruct (Ascii.eqb c "]"); reflexivity.
Qed.

Lemma open_brackets_bracket_depth s : forall d d',
  bracket_depth d s = Some d' -> open_brackets d s = d'.
Proof.
  induction s as [|c s IH]; intros d d' H; cbn [bracket_depth open_brackets] in *.
  - congruence.
  - destruct (Ascii.eqb c "["); [now apply IH|].
    destruct (Ascii.eqb c "]"); [|now apply IH].
    destruct d; [discriminate H | now apply IH].
Qed.

Lemma interpret_stack tg s angle :
  let r := interpret tg s angle in
  length (m_stateStack r) = open_brackets 0 s
  /\ depth (m_currentState r) = Z.of_nat (open_brackets 0 s)
  /\ (if balanced s then m_stateStack r = [] /\ depth (m_currentState r) = 0 else True).
Proof.
  cbn zeta. unfold TurtleGraphics.interpret, uploadBranchData.
  assert (Hs : forall x, m_stateStack (uploadDecorationData x) = m_stateStack x).
  { intros x. unfold uploadDecorationData. destruct (m_decorations x); reflexivity. }
  rewrite Hs, TurtleFacts.uploadDecorationData_currentState.
  destruct (depth_invariant_run s angle (interpret_reset tg) eq_refl I) as [Hd Hl].
  cbn zeta in *. change (length (m_stateStack (interpret_reset tg))) with O in Hl.
  split; [exact Hl|]. split; [now rewrite Hd, Hl|].
  unfold balanced. destruct (bracket_depth 0 s) as [[|k]|] eqn:E; try exact I.
  apply open_brackets_bracket_depth in E. rewrite E in Hl.
  split; [|now rewrite Hd, Hl].
  destruct (m_stateStack (run (interpret_reset tg) s angle)); [reflexivity | discriminate Hl].
Qed.

(** After interpret, for any string, the size of the state stack and
    the depth field of the turtle both equal the number of '[' still
    open, a ']' with nothing open not counting; for a balanced string
    the stack is empty and the depth is 0. *)
Theorem stack_size_is_open_brackets (tg : t) (s : string) (angle : float) :
  let r := interpret tg s angle in
  length (m_stateStack r) = open_brackets 0 s
  /\ depth (m_currentState r) = Z.of_nat (open_brackets 0 s)
  /\ (if balanced s then m_stateStack r = [] /\ depth (m_currentState r) = 0 else True).
Proof. apply interpret_stack. Qed.

(** ** Moving without drawing *)

Lemma undrawn_step tg1 tg2 cmd angle :
  config tg1 = config tg2 ->
  m_currentState tg1 = m_currentState tg2 ->
  m_stateStack tg1 = m_stateStack tg2 ->
  m_decorations tg1 = m_decorations tg2 ->
  m_branches tg1 = [] ->
  let tg1' := processCommand tg1 (if is_draw cmd then "f"%char else cmd) angle in
  let tg2' := processCommand tg2 cmd angle in
  config tg1' = config tg2'
  /\ m_currentState tg1' = m_currentState tg2'
  /\ m_stateStack tg1' = m_stateStack tg2'
  /\ m_decorations tg1' = m_decorations tg2'
  /\ m_branches tg1' = [].
Proof.
  destruct tg1, tg2. unfold config. cbn. intros Hc -> -> -> ->.
  inversion Hc; subst; clear Hc.
  case_symbol cmd; cbn; try (repeat split; reflexivity).
  destruct m_stateStack1; repeat split; reflexivity.
Qed.

Lemma undrawn_run s angle : forall tg1 tg2,
  config tg1 = config tg2 ->
  m_currentState tg1 = m_currentState tg2 ->
  m_stateStack tg1 = m_stateStack tg2 ->
  m_decorations tg1 = m_decorations tg2 ->
  m_branches tg1 = [] ->
  let tg1' := run tg1 (undrawn s) angle in
  let tg2' := run tg2 s angle in
  m_currentState tg1' = m_currentState tg2'
  /\ m_stateStack tg1' = m_stateStack tg2'
  /\ m_decorations tg1' = m_decorations tg2'
  /\ m_branches tg1' = [].
Proof.
  induction s as [|c s IH]; intros tg1 tg2 H1 H2 H3 H4 H5;
    cbn [undrawn TurtleGraphics.run].
  - repeat split; assumption.
  - destruct (undrawn_step tg1 tg2 c angle H1 H2 H3 H4 H5) as (G1 & G2 & G3 & G4 & G5).
    cbn zeta in *. now apply IH.
Qed.

(** The path of the turtle does not depend on what is drawn: with
    every F, G, A and B replaced by f, interpret ends in the same
    turtle state, with the same stack and the same decorations, and
    emits no branch. *)
Theorem undrawn_string_same_path (tg : t) (s : string) (angle : float) :
  m_currentState (interpret tg (undrawn s) angle) = m_currentState (interpret tg s angle)
  /\ m_stateStack (interpret tg (undrawn s) angle) = m_stateStack (interpret tg s angle)
  /\ m_decorations (interpret tg (undrawn s) angle) = m_decorations (interpret tg s angle)
  /\ m_branches (interpret tg (undrawn s) angle) = [].
Proof.
  pose proof (undrawn_run s angle (interpret_reset tg) (interpret_reset tg)
                eq_refl eq_refl eq_refl eq_refl eq_refl) as (H1 & H2 & H3 & H4).
  cbn zeta in *.
  unfold TurtleGraphics.interpret, uploadBranchData.
  destruct (uploadDecorationData_fields (run (interpret_reset tg) (undrawn s) angle))
    as (A1 & A2 & A3 & A4).
  destruct (uploadDecorationData_fields (run (interpret_reset tg) s angle))
    as (B1 & B2 & B3 & B4).
  rewrite A1, A2, A3, A4, B1, B2, B3. repeat split; assumption.
Qed.

(** ** Connected segments *)

Lemma processCommand_position tg cmd angle :
  no_move_or_pop cmd = true ->
  position (m_currentState (processCommand tg cmd angle))
  = if is_draw cmd then end_ (branch_of tg) else position (m_currentState tg).
Proof. case_symbol cmd; cbn; intros H; try discriminate H; reflexivity. Qed.

Lemma chain_end_cons (from : vec3) (b0 : BranchData) (bs : list BranchData) :
  match last (b0 :: bs) with Some b' => end_ b' | None => from end
  = match last bs with Some b' => end_ b' | None => end_ b0 end.
Proof. rewrite last_cons. destruct (last bs); reflexivity. Qed.

Lemma connected_snoc bs : forall from b,
  connected from bs ->
  start b = match last bs with Some b' => end_ b' | None => from end ->
  connected from (bs ++ [b]).
Proof.
  induction bs as [|b0 bs IH]; intros from b Hc Hs.
  - cbn in *. split; [assumption | exact I].
  - destruct Hc as [H0 Hc]. cbn [app connected]. split; [assumption|].
    apply IH; [assumption|]. now rewrite <- (chain_end_cons from).
Qed.

Lemma connected_run s angle from : forall tg,
  all_chars no_move_or_pop s = true ->
  connected from (m_branches tg) ->
  position (m_currentState tg)
  = match last (m_branches tg) with Some b' => end_ b' | None => from end ->
  connected from (m_branches (run tg s angle)).
Proof.
  induction s as [|c s IH]; intros tg Hs Hc Hp; cbn [TurtleGraphics.run]; [assumption|].
  cbn [all_chars] in Hs. apply andb_true_iff in Hs as [Hcmd Hs].
  apply IH; [assumption | |].
  - rewrite TurtleFacts.processCommand_branches.
    destruct (is_draw c); [|now rewrite app_nil_r].
    apply connected_snoc; [assumption|]. cbn. exact Hp.
  - rewrite processCommand_position, TurtleFacts.processCommand_branches by assumption.
    destruct (is_draw c); [now rewrite last_snoc | now rewrite app_nil_r].
Qed.

(** In a string without the move symbol f and without ']', the
    branches form one connected line from the origin: the first starts
    at the origin and each of the others starts where the one before
    it ends, whatever rotations, pushes and other symbols lie
    between. *)
Theorem branches_form_a_connected_line (tg : t) (s : string) (angle : float) :
  all_chars no_move_or_pop s = true ->
  connected (position TurtleState_default) (m_branches (interpret tg s angle)).
Proof.
  intros Hs. unfold TurtleGraphics.interpret, uploadBranchData.
  rewrite TurtleFacts.uploadDecorationData_branches.
  apply connected_run; [assumption | exact I | reflexivity].
Qed.

(** ** The colour shift *)

Lemma leb_min_one v : Float32.leb (Float32.min Float32.one v) Float32.one = true.
Proof.
  unfold Float32.min, Float32.ltb, Float32.leb, SFltb, SFleb.
  destruct (SFcompare v Float32.one) as [[| |]|] eqn:E; try reflexivity.
  now rewrite E.
Qed.

Lemma leb_max_zero v : Float32.leb Float32.zero (Float32.max Float32.zero v) = true.
Proof.
  unfold Float32.max, Float32.ltb, Float32.leb, SFltb, SFleb.
  destruct (SFcompare Float32.zero v) as [[| |]|] eqn:E; try reflexivity.
  now rewrite E.
Qed.

(** The colour shift (') always leaves a green channel that is at most
    1 and a red channel that is at least 0, even from a colour with
    NaN channels, since std::min and std::max return their first
    argument when the comparison fails; blue and everything but the
    colour are untouched. *)
Theorem colour_shift_is_clamped (tg : t) (angle : float) :
  let st := m_currentState tg in
  let tg' := processCommand tg "'" angle in
  let st' := m_currentState tg' in
  Float32.leb (y (color st')) Float32.one = true
  /\ Float32.leb Float32.zero (x (color st')) = true
  /\ z (color st') = z (color st)
  /\ with_color (color st) st' = st
  /\ m_stateStack tg' = m_stateStack tg
  /\ m_branches tg' = m_branches tg
  /\ m_decorations tg' = m_decorations tg.
Proof.
  cbn. split; [apply leb_min_one|]. split; [apply leb_max_zero|].
  destruct (m_currentState tg). repeat split; reflexivity.
Qed.

(** ** Thickness *)

Lemma processCommand_width_pop tg angle :
  width (m_currentState (processCommand tg "]" angle))
  = match m_stateStack tg with
    | top :: _ => width top
    | [] => width (m_currentState tg)
    end.
Proof. cbn. destruct (m_stateStack tg); reflexivity. Qed.

Lemma widths_bounded_step w0 tg cmd angle :
  Float32Spec.nonneg_finite w0 = true ->
  Float32Spec.in_unit_interval (m_widthDecay tg) = true ->
  widths_bounded w0 tg -> widths_bounded w0 (processCommand tg cmd angle).
Proof.
  intros Hw0 Hd (Hcur & Hstk & Hbs). unfold widths_bounded.
  rewrite TurtleFacts.processCommand_stack, TurtleFacts.processCommand_branches.
  assert (Hbs' : Forall (fun b => Float32Spec.nonneg_finite (radiusStart b) = true
                                  /\ Float32.leb (radiusStart b) w0 = true)
                        (m_branches tg ++ (if is_draw cmd then [branch_of tg] else []))).
  { destruct (is_draw cmd); [|now rewrite app_nil_r].
    apply List.Forall_app. split; [assumption|]. constructor; [exact Hcur | constructor]. }
  destruct (Ascii.eqb_spec cmd "]") as [->|Hne].
  - rewrite processCommand_width_pop. cbn [Ascii.eqb Bool.eqb andb].
    destruct (m_stateStack tg) as [|top rest]; cbn [tail].
    + split; [exact Hcur|]. split; assumption.
    + inversion Hstk; subst. split; [assumption|]. split; assumption.
  - assert (Hpop : is_pop cmd = false) by (unfold is_pop; now apply Ascii.eqb_neq).
    rewrite TurtleFacts.processCommand_width by assumption.
    cbv iota.
    assert (Hstk' : Forall (fun st => Float32Spec.nonneg_finite (width st) = true
                                      /\ Float32.leb (width st) w0 = true)
                           (if Ascii.eqb cmd "[" then m_currentState tg :: m_stateStack tg
                            else m_stateStack tg)).
    { destruct (Ascii.eqb cmd "["); [constructor|]; assumption. }
    split; [|split; assumption].
    destruct (Ascii.eqb cmd "[" || Ascii.eqb cmd "!"); [|assumption].
    destruct Hcur as [Hnn Hle].
    destruct (Float32Facts.mul_unit_interval _ _ Hnn Hd) as [Hnn' Hle'].
    split; [assumption|].
    now apply (Float32Facts.leb_trans _ (width (m_currentState tg)) w0).
Qed.

Lemma widths_bounded_run w0 s angle : forall tg,
  Float32Spec.nonneg_finite w0 = true ->
  Float32Spec.in_unit_interval (m_widthDecay tg) = true ->
  widths_bounded w0 tg -> widths_bounded w0 (run tg s angle).
Proof.
  induction s as [|c s IH]; intros tg Hw0 Hd Hinv; cbn [TurtleGraphics.run]; [assumption|].
  apply IH; [assumption | | now apply widths_bounded_step].
  now rewrite (TurtleFacts.config_widthDecay _ _ (TurtleFacts.processCommand_config cosf sinf tg c angle)).
Qed.

(** For any string, pops included, when the initial width is a
    non-negative finite number and widthDecay lies between 0 and 1, no
    branch starts thicker than the initial width and every branch
    tapers: its end radius is at most its start radius. *)
Theorem branches_never_thicker_than_initial_width (tg : t) (s : string) (angle : float) :
  Float32Spec.nonneg_finite (m_initialWidth tg) = true ->
  Float32Spec.in_unit_interval (m_widthDecay tg) = true ->
  Forall (fun b =>
            Float32.leb (radiusStart b) (m_initialWidth tg) = true
            /\ Float32.leb (radiusEnd b) (radiusStart b) = true)
         (m_branches (interpret tg s angle)).
Proof.
  intros Hw Hd. unfold TurtleGraphics.interpret, uploadBranchData.
  rewrite TurtleFacts.uploadDecorationData_branches.
  assert (Hinv : widths_bounded (m_initialWidth tg) (interpret_reset tg)).
  { repeat split; try constructor; [exact Hw | now apply Float32Facts.leb_refl]. }
  assert (Hend : forall s' tg0,
             m_widthDecay tg0 = m_widthDecay tg ->
             Forall (fun b => Float32Spec.nonneg_finite (radiusStart b) = true ->
                              Float32.leb (radiusEnd b) (radiusStart b) = true)
                    (m_branches tg0) ->
             Forall (fun b => Float32Spec.nonneg_finite (radiusStart b) = true ->
                              Float32.leb (radiusEnd b) (radiusStart b) = true)
                    (m_branches (run tg0 s' angle))).
  { induction s' as [|c s' IH]; intros tg0 Hk Hall; cbn [TurtleGraphics.run]; [assumption|].
    apply IH.
    - now rewrite (TurtleFacts.config_widthDecay _ _
                     (TurtleFacts.processCommand_config cosf sinf tg0 c angle)).
    - rewrite TurtleFacts.processCommand_branches.
      destruct (is_draw c); [|now rewrite app_nil_r].
      apply List.Forall_app. split; [assumption|]. constructor; [|constructor].
      cbn. intros Hnn. rewrite Hk.
      now apply Float32Facts.mul_unit_interval. }
  pose proof (widths_bounded_run (m_initialWidth tg) s angle (interpret_reset tg) Hw Hd Hinv)
    as (_ & _ & Hbs).
  specialize (Hend s (interpret_reset tg) eq_refl ltac:(constructor)).
  revert Hbs Hend. generalize (m_branches (run (interpret_reset tg) s angle)) as bs.
  induction bs as [|b bs IH]; intros Hbs Hend; constructor.
  - inversion Hbs; subst. inversion Hend; subst. destruct H1 as [Hnn Hle]. split; auto.
  - inversion Hbs; subst. inversion Hend; subst. now apply IH.
Qed.

End WithLibm.

(** ** Evaluations *)

Lemma interpret_forgets_earlier_runs_witness :
  let cosf := Libm.cosf_table in
  let sinf := Libm.sinf_table in
  let angle := Float32.of_Z 90 in
  let tg1 := new in
  let tg2 := interpret cosf sinf new "F[+FL]K" angle in
  m_branches (interpret cosf sinf tg1 "F-F" angle)
  = m_branches (interpret cosf sinf tg2 "F-F" angle)
  /\ m_decorations (interpret cosf sinf tg1 "F-F" angle)
     = m_decorations (interpret cosf sinf tg2 "F-F" angle)
  /\ m_currentState (interpret cosf sinf tg1 "F-F" angle)
     = m_currentState (interpret cosf sinf tg2 "F-F" angle)
  /\ m_stateStack (interpret cosf sinf tg1 "F-F" angle)
     = m_stateStack (interpret cosf sinf tg2 "F-F" angle).
Proof.
  apply (interpret_forgets_earlier_runs Libm.cosf_table Libm.sinf_table
           new (interpret Libm.cosf_table Libm.sinf_table new "F[+FL]K" (Float32.of_Z 90))
           "F-F" (Float32.of_Z 90)).
  vm_compute. reflexivity.
Defined.

Lemma branches_form_a_connected_line_witness :
  connected (position TurtleState_default)
    (m_branches (interpret Libm.cosf_table Libm.sinf_table new "F+F[-FL!F" (Float32.of_Z 90))).
Proof.
  apply (branches_form_a_connected_line Libm.cosf_table Libm.sinf_table
           new "F+F[-FL!F" (Float32.of_Z 90)).
  vm_compute. reflexivity.
Defined.

Lemma branches_never_thicker_than_initial_width_witness :
  Forall (fun b =>
            Float32.leb (radiusStart b) (m_initialWidth new) = true
            /\ Float32.leb (radiusEnd b) (radiusStart b) = true)
         (m_branches (interpret Libm.cosf_table Libm.sinf_table new "F[+F]!F]F" (Float32.of_Z 90))).
Proof.
  apply (branches_never_thicker_than_initial_width Libm.cosf_table Libm.sinf_table
           new "F[+F]!F]F" (Float32.of_Z 90)); vm_compute; reflexivity.
Defined.

End TurtleMore.

(* ===================================================================== *)
(** * Widths along pushes that are not popped                              *)
(* ===================================================================== *)

Module TurtleChain.

Import Glm TurtleGraphics TurtleSpec TurtleSpecMore.

Lemma nth_error_middle {A} (l : list A) (a : A) (r : list A) :
  nth_error (l ++ a :: r) (length l) = Some a.
Proof. rewrite nth_error_app2 by lia. now rewrite Nat.sub_diag. Qed.

Lemma draw_is_no_bracket c :
  is_draw c = true -> Ascii.eqb c "[" = false /\ Ascii.eqb c "]" = false.
Proof.
  destruct c as [[] [] [] [] [] [] [] []]; cbn; intros H; try discriminate H;
    split; reflexivity.
Qed.

Lemma thin_weaken w1 e1 deep w :
  thin w1 e1 true w -> thin w1 e1 deep w.
Proof. intros [Hnn Hle]. split; [assumption|]. destruct deep; [assumption | now right]. Qed.

Section WithLibm.

Variables cosf sinf : float -> float.

Local Abbreviation processCommand := (processCommand cosf sinf).
Local Abbreviation run := (run cosf sinf).
Local Abbreviation interpret := (interpret cosf sinf).

(** Commands only ever append to the branch list. *)
Lemma run_branches s angle : forall tg,
  exists more,
    m_branches (run tg s angle) = m_branches tg ++ more
    /\ length more = count_draw s.
Proof.
  induction s as [|c s IH]; intros tg; cbn [TurtleGraphics.run count_draw].
  - exists []. split; [now rewrite app_nil_r | reflexivity].
  - destruct (IH (processCommand tg c angle)) as (more & Hm & Hl).
    rewrite TurtleFacts.processCommand_branches in Hm.
    exists ((if is_draw c then [branch_of tg] else []) ++ more). split.
    + rewrite Hm. symmetry. apply List.app_assoc.
    + rewrite List.length_app, Hl. destruct (is_draw c); reflexivity.
Qed.

(** One multiplication by widthDecay brings any width of the stretch
    down to the end radius of the first branch or below. *)
Lemma thin_decay w1 d deep w :
  Float32Spec.nonneg_finite w1 = true ->
  Float32Spec.in_unit_interval d = true ->
  thin w1 (w1 * d)%f32 deep w -> thin w1 (w1 * d)%f32 true (w * d)%f32.
Proof.
  intros Hw1 Hd [Hnn Hw].
  destruct (Float32Facts.mul_unit_interval _ _ Hw1 Hd) as [Hnn1 Hle1].
  destruct (Float32Facts.mul_unit_interval _ _ Hnn Hd) as [Hnn' Hle'].
  split; [assumption|].
  assert (Hcases : w = w1 \/ Float32.leb w (w1 * d)%f32 = true)
    by (destruct deep; [now right | assumption]).
  destruct Hcases as [-> | Hle].
  - now apply Float32Facts.leb_refl.
  - now apply (Float32Facts.leb_trans _ w _).
Qed.

(** The invariant of a stretch of commands in which every pop closes
    a push of the stretch: the states pushed by the stretch lie on top
    of the stack it found, and they and the current state hold widths
    as [thin] and [saved_widths] describe. *)
Lemma nested_run w1 d base mid angle : forall tg saved k,
  Float32Spec.nonneg_finite w1 = true ->
  Float32Spec.in_unit_interval d = true ->
  m_widthDecay tg = d ->
  m_stateStack tg = saved ++ base ->
  bracket_depth (length saved) mid = Some k ->
  thin w1 (w1 * d)%f32 (has_saved saved) (width (m_currentState tg)) ->
  saved_widths w1 (w1 * d)%f32 saved ->
  exists saved',
    m_stateStack (run tg mid angle) = saved' ++ base
    /\ length saved' = k
    /\ thin w1 (w1 * d)%f32 (has_saved saved')
         (width (m_currentState (run tg mid angle)))
    /\ saved_widths w1 (w1 * d)%f32 saved'.
Proof.
  induction mid as [|c mid IH]; intros tg saved k Hw1 Hd Hk Hstack Hdepth Hcur Hsaved;
    cbn [TurtleGraphics.run bracket_depth] in *.
  - exists saved. injection Hdepth as <-.
    split; [exact Hstack|]. split; [reflexivity|]. split; assumption.
  - pose proof (TurtleFacts.config_widthDecay _ _
                  (TurtleFacts.processCommand_config cosf sinf tg c angle)) as Hk'.
    rewrite Hk in Hk'.
    pose proof (TurtleFacts.processCommand_stack cosf sinf tg c angle) as Hstk.
    destruct (Ascii.eqb_spec c "[") as [->|Hnpush].
    + (* push *)
      apply (IH (processCommand tg "[" angle) (m_currentState tg :: saved) k Hw1 Hd Hk').
      * rewrite Hstk, Hstack. reflexivity.
      * exact Hdepth.
      * change (width (m_currentState (processCommand tg "[" angle)))
          with (width (m_currentState tg) * m_widthDecay tg)%f32.
        rewrite Hk. cbn [has_saved]. now apply (thin_decay w1 d (has_saved saved)).
      * cbn [saved_widths]. split; assumption.
    + destruct (Ascii.eqb_spec c "]") as [->|Hnpop].
      * (* pop *)
        destruct saved as [|top rest]; [discriminate Hdepth|].
        cbn [length] in Hdepth. cbn [saved_widths] in Hsaved. destruct Hsaved as [Htop Hrest].
        rewrite (TurtleFacts.processCommand_pop cosf sinf tg top (rest ++ base) angle Hstack)
          in *.
        apply (IH _ rest k Hw1 Hd Hk'); try assumption. reflexivity.
      * (* any other command *)
        assert (Hpop : is_pop c = false) by (unfold is_pop; now apply Ascii.eqb_neq).
        pose proof (TurtleFacts.processCommand_width cosf sinf tg c angle Hpop) as Hwidth.
        apply Ascii.eqb_neq in Hnpush. rewrite Hnpush in Hwidth. cbn [orb] in Hwidth.
        apply (IH (processCommand tg c angle) saved k Hw1 Hd Hk'); try assumption.
        -- now rewrite Hstk.
        -- rewrite Hwidth. destruct (Ascii.eqb c "!"); [|assumption].
           rewrite Hk. apply thin_weaken. now apply (thin_decay w1 d (has_saved saved)).
Qed.

(** C9, amended: take any two draw commands of a string such that
    every ']' between them closes a '[' between them, whatever
    precedes and follows; [k] pushes made between them are then still
    open at the second.  When the initial width is a non-negative
    finite number and widthDecay lies between 0 and 1, the later
    branch starts no thicker than the earlier one, and when it is
    nested inside the earlier one ([k] is at least 1) it starts no
    thicker than the end radius of that enclosing branch: the end
    radius itself, not multiplied by widthDecay again. *)
Theorem width_decay_along_pushes
    (tg : t) (pre mid post : string) (cmd1 cmd2 : ascii) (k : nat) (angle : float) :
  is_draw cmd1 = true ->
  is_draw cmd2 = true ->
  bracket_depth 0 mid = Some k ->
  Float32Spec.nonneg_finite (m_initialWidth tg) = true ->
  Float32Spec.in_unit_interval (m_widthDecay tg) = true ->
  let s := pre +:+ String cmd1 (mid +:+ String cmd2 post) in
  let bs := m_branches (interpret tg s angle) in
  exists b1 b2,
    nth_error bs (count_draw pre) = Some b1
    /\ nth_error bs (count_draw pre + 1 + count_draw mid) = Some b2
    /\ Float32.leb (radiusStart b2) (radiusStart b1) = true
    /\ ((0 < k)%nat -> Float32.leb (radiusStart b2) (radiusEnd b1) = true).
Proof.
  intros Hd1 Hd2 Hmid Hw Hd. cbn zeta.
  unfold TurtleGraphics.interpret, uploadBranchData.
  rewrite TurtleFacts.uploadDecorationData_branches.
  rewrite TurtleFacts.run_app. cbn [TurtleGraphics.run].
  rewrite TurtleFacts.run_app. cbn [TurtleGraphics.run].
  set (tgp := run (interpret_reset tg) pre angle).
  set (tg1 := processCommand tgp cmd1 angle).
  set (tgm := run tg1 mid angle).
  set (tg2 := processCommand tgm cmd2 angle).
  exists (branch_of tgp), (branch_of tgm).
  assert (Hkp : m_widthDecay tgp = m_widthDecay tg).
  { unfold tgp.
    now rewrite (TurtleFacts.config_widthDecay _ _
                   (TurtleFacts.run_config cosf sinf pre angle (interpret_reset tg))). }
  assert (Hinv : widths_bounded (m_initialWidth tg) (interpret_reset tg)).
  { repeat split; try constructor; [exact Hw | now apply Float32Facts.leb_refl]. }
  pose proof (TurtleMore.widths_bounded_run cosf sinf (m_initialWidth tg) pre angle
                (interpret_reset tg) Hw Hd Hinv) as ((Hwp & _) & _ & _).
  fold tgp in Hwp.
  (* the branch list *)
  destruct (run_branches post angle tg2) as (more3 & H3 & _).
  destruct (run_branches mid angle tg1) as (more2 & H2 & Hl2).
  fold tgm in H2.
  assert (Hlp : length (m_branches tgp) = count_draw pre).
  { unfold tgp. now rewrite TurtleFacts.run_branch_count. }
  assert (Hbs : m_branches (run tg2 post angle)
                = (m_branches tgp ++ branch_of tgp :: more2) ++ branch_of tgm :: more3).
  { rewrite H3. unfold tg2. rewrite TurtleFacts.processCommand_branches, Hd2, H2.
    unfold tg1. rewrite TurtleFacts.processCommand_branches, Hd1.
    rewrite <- !List.app_assoc. reflexivity. }
  (* the widths *)
  destruct (draw_is_no_bracket cmd1 Hd1) as [Hpush1 Hpop1].
  assert (Hstretch : bracket_depth 0 (String cmd1 mid) = Some k).
  { cbn [bracket_depth]. now rewrite Hpush1, Hpop1. }
  set (w1 := width (m_currentState tgp)) in *.
  destruct (Float32Facts.mul_unit_interval _ _ Hwp Hd) as [Hnn1 Hle1].
  destruct (nested_run w1 (m_widthDecay tg) (m_stateStack tgp) (String cmd1 mid) angle
              tgp [] k Hwp Hd Hkp eq_refl Hstretch)
    as (saved' & _ & Hlen & [Hnn Hthin] & _).
  { split; [exact Hwp | now left]. }
  { exact I. }
  cbn [TurtleGraphics.run] in Hnn, Hthin. fold tg1 in Hnn, Hthin. fold tgm in Hnn, Hthin.
  split; [|split; [|split]].
  - rewrite Hbs, <- List.app_assoc, <- Hlp. apply nth_error_middle.
  - rewrite Hbs.
    replace (count_draw pre + 1 + count_draw mid)%nat
      with (length (m_branches tgp ++ branch_of tgp :: more2)).
    + apply nth_error_middle.
    + rewrite List.length_app. cbn [length]. lia.
  - cbn [branch_of radiusStart]. fold w1.
    destruct saved' as [|top rest]; cbn [has_saved] in Hthin.
    + destruct Hthin as [-> | Hle]; [now apply Float32Facts.leb_refl|].
      now apply (Float32Facts.leb_trans _ (w1 * m_widthDecay tg)%f32 _).
    + now apply (Float32Facts.leb_trans _ (w1 * m_widthDecay tg)%f32 _).
  - intros Hpos. cbn [branch_of radiusStart radiusEnd]. fold w1. rewrite Hkp.
    destruct saved' as [|top rest]; [cbn [length] in Hlen; lia|].
    exact Hthin.
Qed.

End WithLibm.

Lemma width_decay_along_pushes_witness :
  let bs := m_branches (interpret Libm.cosf_table Libm.sinf_table new
                          "[F]F+[[!F]-F[F" (Float32.of_Z 90)) in
  exists b1 b2,
    nth_error bs 1 = Some b1
    /\ nth_error bs 3 = Some b2
    /\ Float32.leb (radiusStart b2) (radiusStart b1) = true
    /\ Float32.leb (radiusStart b2) (radiusEnd b1) = true.
Proof.
  destruct (width_decay_along_pushes Libm.cosf_table Libm.sinf_table
              new "[F]" "+[[!F]-" "[F" "F" "F" 1 (Float32.of_Z 90))
    as (b1 & b2 & H1 & H2 & H3 & H4);
    try (vm_compute; reflexivity).
  exists b1, b2. split; [exact H1|]. split; [exact H2|]. split; [exact H3|].
  apply H4. lia.
Defined.

End TurtleChain.

(* ===================================================================== *)
(** * Properties of the presets and of the Generar button                  *)
(* ===================================================================== *)

Module PresetFacts.

Import StdString ParserSpec TurtleSpec GrammarSpec PresetSpec.

Lemma take_all s : forall n, (String.length s <= n)%nat -> take n s = s.
Proof.
  induction s as [|c s IH]; intros n H; destruct n; cbn in *; try reflexivity; try lia.
  rewrite IH by lia. reflexivity.
Qed.

(** The table, checked entry by entry. *)
Lemma presets_checked :
  forallb (fun p => preset_fits p && preset_bracket_safe p && preset_planar p) UI.PRESETS
  = true.
Proof. vm_compute. reflexivity. Qed.

Lemma preset_in_range index :
  0 <= index < UI.NUM_PRESETS ->
  exists p, nth_error UI.PRESETS (Z.to_nat index) = Some p
            /\ preset_fits p = true /\ preset_bracket_safe p = true
            /\ preset_planar p = true.
Proof.
  intros Hr. unfold UI.NUM_PRESETS in Hr.
  destruct (nth_error UI.PRESETS (Z.to_nat index)) as [p|] eqn:E.
  - exists p. split; [reflexivity|].
    pose proof presets_checked as Hall. rewrite forallb_forall in Hall.
    specialize (Hall p (nth_error_In _ _ E)).
    apply andb_true_iff in Hall as [Hall H3]. apply andb_true_iff in Hall as [H1 H2].
    repeat split; assumption.
  - apply nth_error_None in E. lia.
Qed.

Lemma loadPreset_in_range index ui p :
  0 <= index < UI.NUM_PRESETS ->
  nth_error UI.PRESETS (Z.to_nat index) = Some p ->
  preset_fits p = true ->
  UI.loadPreset index ui = panel_of p ui.
Proof.
  intros Hr Hp Hfit. unfold UI.loadPreset.
  replace (index <? 0) with false by (symmetry; apply Z.ltb_ge; lia).
  replace (UI.NUM_PRESETS <=? index) with false by (symmetry; apply Z.leb_gt; lia).
  cbn [orb]. rewrite Hp. unfold panel_of, UI.strncpy_buffer, preset_fits in *.
  apply andb_true_iff in Hfit as [Ha Hrs].
  apply Nat.ltb_lt in Ha, Hrs.
  rewrite !take_all by lia. reflexivity.
Qed.

(** loadPreset ignores an index outside the table, and for an index
    inside it copies the preset into the panel without truncation:
    every axiom and rule text of the table fits its buffer. *)
Theorem loadPreset_copies_or_ignores (index : Z) (ui : UI.t) :
  (index < 0 \/ UI.NUM_PRESETS <= index -> UI.loadPreset index ui = ui)
  /\ (0 <= index < UI.NUM_PRESETS ->
      exists p, nth_error UI.PRESETS (Z.to_nat index) = Some p
                /\ UI.loadPreset index ui = panel_of p ui).
Proof.
  split.
  - intros Hout. unfold UI.loadPreset.
    destruct (index <? 0) eqn:E1; [reflexivity|].
    destruct (UI.NUM_PRESETS <=? index) eqn:E2; [reflexivity|].
    apply Z.ltb_ge in E1. apply Z.leb_gt in E2. lia.
  - intros Hr. destruct (preset_in_range index Hr) as (p & Hp & Hfit & _).
    exists p. split; [assumption|]. now apply loadPreset_in_range.
Qed.

(** ** The grammar behind the button *)

Lemma button_grammar ax text a ls :
  let g := LSystem.setAngle a
             (UI.parse_rules text (LSystem.clearRules (LSystem.setAxiom ax ls))) in
  LSystem.getAxiom g = ax
  /\ LSystem.rules g = LSystem.rules (UI.parse_rules text LSystem.new).
Proof.
  cbn zeta. unfold UI.parse_rules. rewrite !ParserFacts.rules_loop_fold by lia.
  destruct (ParserFacts.fold_rule_line_frame (split_rules text)
              (LSystem.clearRules (LSystem.setAxiom ax ls))) as (H1 & _).
  cbn zeta in H1. unfold LSystem.getAxiom. cbn [LSystem.setAngle LSystem.axiom LSystem.rules].
  split; [exact H1|]. now apply ParserFacts.fold_rule_line_rules.
Qed.

Section WithLibm.

Variables cosf sinf : float -> float.

(** Whatever preset is loaded and whatever number of generations the
    slider is set to, the Generar button produces a string with
    balanced brackets, and the interpretation ends with an empty state
    stack at depth 0: no preset leaves a push open or meets a dangling
    pop. *)
Theorem presets_generate_balanced_strings
    (index n : Z) (ui : UI.t) (lsystem : LSystem.t) (turtle : TurtleGraphics.t) :
  0 <= index < UI.NUM_PRESETS ->
  let r := UI.generate_button cosf sinf
             (UI.set_generations n (UI.loadPreset index ui)) lsystem turtle in
  balanced (LSystem.getString (fst r)) = true
  /\ TurtleGraphics.m_stateStack (snd r) = []
  /\ TurtleGraphics.depth (TurtleGraphics.m_currentState (snd r)) = 0.
Proof.
  intros Hr. destruct (preset_in_range index Hr) as (p & Hp & Hfit & Hsafe & _).
  rewrite (loadPreset_in_range index ui p Hr Hp Hfit). cbn zeta.
  unfold UI.generate_button, UI.set_generations, panel_of.
  cbn [UI.m_axiom UI.m_rules UI.m_angle UI.m_generations fst snd].
  destruct (button_grammar (UI.axiom p) (UI.rules p) (UI.angle p) lsystem) as [Hax Hrs].
  cbn zeta in *.
  set (g := LSystem.setAngle _ _) in *.
  unfold preset_bracket_safe, preset_rules in Hsafe.
  apply andb_true_iff in Hsafe as [Hbal Hsafe]. rewrite <- Hrs in Hsafe.
  assert (Hb : balanced (LSystem.getString (LSystem.generate n g)) = true).
  { rewrite LSystemMore.generate_balanced by assumption. now rewrite Hax. }
  split; [exact Hb|].
  pose proof (TurtleMore.interpret_stack cosf sinf turtle
                (LSystem.getString (LSystem.generate n g)) (UI.angle p)) as (_ & _ & H3).
  rewrite Hb in H3. exact H3.
Qed.

(** A preset that selects 2D mode never sends a pitch or roll symbol
    (& ^ \ /) to the interpreter, at any number of generations. *)
Theorem presets_for_2D_have_no_pitch_or_roll
    (index n : Z) (ui : UI.t) (lsystem : LSystem.t) (turtle : TurtleGraphics.t) :
  0 <= index < UI.NUM_PRESETS ->
  UI.m_is3DMode (UI.loadPreset index ui) = false ->
  let r := UI.generate_button cosf sinf
             (UI.set_generations n (UI.loadPreset index ui)) lsystem turtle in
  all_chars no_pitch_or_roll (LSystem.getString (fst r)) = true.
Proof.
  intros Hr. destruct (preset_in_range index Hr) as (p & Hp & Hfit & _ & Hplanar).
  rewrite (loadPreset_in_range index ui p Hr Hp Hfit). cbn zeta.
  unfold UI.generate_button, UI.set_generations, panel_of.
  cbn [UI.m_axiom UI.m_rules UI.m_angle UI.m_generations UI.m_is3DMode fst snd].
  intros H2D.
  destruct (button_grammar (UI.axiom p) (UI.rules p) (UI.angle p) lsystem) as [Hax Hrs].
  cbn zeta in *.
  set (g := LSystem.setAngle _ _) in *.
  unfold preset_planar, preset_rules in Hplanar. rewrite H2D in Hplanar. cbn [orb] in Hplanar.
  apply andb_true_iff in Hplanar as [Ha Hrep]. rewrite <- Hrs in Hrep.
  apply LSystemMore.generate_alphabet; [now rewrite Hax | assumption].
Qed.

End WithLibm.

Lemma presets_generate_balanced_strings_witness :
  let r := UI.generate_button Libm.cosf_table Libm.sinf_table
             (UI.set_generations 2 (UI.loadPreset 6 UI.initial))
             LSystem.new TurtleGraphics.new in
  balanced (LSystem.getString (fst r)) = true
  /\ TurtleGraphics.m_stateStack (snd r) = []
  /\ TurtleGraphics.depth (TurtleGraphics.m_currentState (snd r)) = 0.
Proof.
  apply (presets_generate_balanced_strings Libm.cosf_table Libm.sinf_table
           6 2 UI.initial LSystem.new TurtleGraphics.new).
  vm_compute. split; [intros H; discriminate H | reflexivity].
Defined.

Lemma presets_for_2D_have_no_pitch_or_roll_witness :
  let r := UI.generate_button Libm.cosf_table Libm.sinf_table
             (UI.set_generations 3 (UI.loadPreset 10 UI.initial))
             LSystem.new TurtleGraphics.new in
  all_chars no_pitch_or_roll (LSystem.getString (fst r)) = true.
Proof.
  apply (presets_for_2D_have_no_pitch_or_roll Libm.cosf_table Libm.sinf_table
           10 3 UI.initial LSystem.new TurtleGraphics.new).
  - vm_compute. split; [intros H; discriminate H | reflexivity].
  - vm_compute. reflexivity.
Defined.

End PresetFacts.

